(** * A product catalog with XML persistence (prog/idz.py)

    The program keeps a list of [Product] records inside a [Staff] object,
    adds records (rejecting negative counts and re-sorting by name), selects
    records by name, and saves to / loads from an XML file through Python's
    [xml.etree.ElementTree].

    The development is organised as follows:
    - [Py]    : the Python builtins the program relies on ([int], [str],
                [list.sort] with a key);
    - [ET]    : the part of ElementTree the program uses (elements, the
                writer, what the reader returns for a written tree);
    - the program itself, written in a small state-and-exception monad over
      the [Staff] object and the file store;
    - the properties of [add], [select], [load] and [save]. *)

From Stdlib Require Import ZArith Ascii String DecimalString DecimalPos DecimalZ.
From Stdlib Require Import Sorted Permutation.
From stdpp Require Import base option list sorting strings gmap.

Local Open Scope Z_scope.

(** * Python builtins *)

Module Py.

(** Python strings are modelled by [string]: the UTF-8 encoding of the text.
    Byte-wise lexicographic comparison of UTF-8 coincides with Python's
    code-point comparison of [str]. *)

(** Exceptions the program can raise or let escape.  [OSError] stands for
    the subclasses of [OSError] other than [FileNotFoundError]
    ([IsADirectoryError], [PermissionError], ...). *)
Inductive exn : Type :=
  | IllegalCount (count : Z) (message : string)
  | ValueError
  | TypeError
  | ParseError
  | UnicodeDecodeError
  | FileNotFoundError
  | OSError.

(** ** [int(text)] *)

(** The characters stripped around an ASCII literal (ASCII white space). *)
Definition is_space (c : ascii) : bool :=
  match c with
  | " " | "009" | "010" | "011" | "012" | "013" => true
  | _ => false
  end%char.

(** The value of an ASCII decimal digit (codes 48 to 57). *)
Definition digit_val (c : ascii) : option Z :=
  let code := Z.of_N (N_of_ascii c) in
  if (48 <=? code) && (code <=? 57) then Some (code - 48) else None.

Fixpoint lstrip (s : string) : string :=
  match s with
  | String c s' => if is_space c then lstrip s' else s
  | EmptyString => EmptyString
  end.

Fixpoint rstrip (s : string) : string :=
  match s with
  | String c s' =>
      match rstrip s' with
      | EmptyString => if is_space c then EmptyString else String c EmptyString
      | r => String c r
      end
  | EmptyString => EmptyString
  end.

Definition strip (s : string) : string := rstrip (lstrip s).

(** [int] first maps the text to ASCII: a code point below 127 is kept, a
    Unicode white-space character becomes a space, and a character with the
    Unicode property of a decimal digit becomes the ASCII digit of its
    value; any other character makes the text invalid.  The text is then
    read as an ASCII literal, with ASCII white space stripped around it. *)

(** The six payload bits of a UTF-8 continuation byte. *)
Definition utf8_tail (c : ascii) : option N :=
  let n := N_of_ascii c in
  if ((128 <=? n) && (n <? 192))%N then Some (n - 128)%N else None.

(** The code points of a text; [None] when the bytes are not the UTF-8
    encoding of a sequence of code points (surrogates excluded). *)
Fixpoint code_points (s : string) : option (list N) :=
  match s with
  | EmptyString => Some []
  | String c s1 =>
      let n := N_of_ascii c in
      if (n <? 128)%N then cons n <$> code_points s1
      else if (n <? 192)%N then None
      else if (n <? 224)%N then
        match s1 with
        | String c1 s2 =>
            x1 ← utf8_tail c1;
            let cp := ((n - 192) * 64 + x1)%N in
            if (128 <=? cp)%N then cons cp <$> code_points s2 else None
        | _ => None
        end
      else if (n <? 240)%N then
        match s1 with
        | String c1 (String c2 s3) =>
            x1 ← utf8_tail c1; x2 ← utf8_tail c2;
            let cp := ((n - 224) * 4096 + x1 * 64 + x2)%N in
            if ((2048 <=? cp) && negb ((55296 <=? cp) && (cp <? 57344)))%N
            then cons cp <$> code_points s3 else None
        | _ => None
        end
      else if (n <? 248)%N then
        match s1 with
        | String c1 (String c2 (String c3 s4)) =>
            x1 ← utf8_tail c1; x2 ← utf8_tail c2; x3 ← utf8_tail c3;
            let cp := ((n - 240) * 262144 + x1 * 4096 + x2 * 64 + x3)%N in
            if ((65536 <=? cp) && (cp <? 1114112))%N
            then cons cp <$> code_points s4 else None
        | _ => None
        end
      else None
  end.

(** The code points of the digit zero of each script: the characters with
    the decimal-digit property come in runs of ten, in the order of their
    values (Unicode 14, the version of CPython 3.11). *)
Definition decimal_zeros : list N :=
  [48; 1632; 1776; 1984; 2406; 2534; 2662; 2790; 2918; 3046; 3174; 3302;
   3430; 3558; 3664; 3792; 3872; 4160; 4240; 6112; 6160; 6470; 6608; 6784;
   6800; 6992; 7088; 7232; 7248; 42528; 43216; 43264; 43472; 43504; 43600;
   44016; 65296; 66720; 68912; 69734; 69872; 69942; 70096; 70384; 70736;
   70864; 71248; 71360; 71472; 71904; 72016; 72784; 73040; 73120; 92768;
   92864; 93008; 120782; 120792; 120802; 120812; 120822; 123200; 123632;
   125264; 130032]%N.

(** The value of a decimal digit of any script. *)
Definition decimal_value (cp : N) : option N :=
  (λ zero, (cp - zero)%N) <$>
    List.find (λ zero, ((zero <=? cp) && (cp <? zero + 10))%N) decimal_zeros.

(** The white-space characters outside ASCII: U+0085, U+00A0, U+1680,
    U+2000 to U+200A, U+2028, U+2029, U+202F, U+205F and U+3000. *)
Definition unicode_space (cp : N) : bool :=
  ((cp =? 133) || (cp =? 160) || (cp =? 5760) || ((8192 <=? cp) && (cp <=? 8202))
   || (cp =? 8232) || (cp =? 8233) || (cp =? 8239) || (cp =? 8287)
   || (cp =? 12288))%N.

Definition to_ascii (cp : N) : option ascii :=
  if (cp <? 127)%N then Some (ascii_of_N cp)
  else if unicode_space cp then Some " "%char
  else (λ d, ascii_of_N (48 + d)) <$> decimal_value cp.

Fixpoint to_ascii_all (cps : list N) : option string :=
  match cps with
  | [] => Some EmptyString
  | cp :: cps' => c ← to_ascii cp; s ← to_ascii_all cps'; Some (String c s)
  end.

(** The text after the mapping to ASCII, when every character has an
    image. *)
Definition ascii_text (s : string) : option string :=
  code_points s ≫= to_ascii_all.

(** The digits that follow a first digit: [digit] or ["_" digit], repeated.
    [acc] is the value read so far. *)
Fixpoint int_digits (s : string) (acc : Z) : option Z :=
  match s with
  | EmptyString => Some acc
  | String c s' =>
      match digit_val c with
      | Some d => int_digits s' (10 * acc + d)
      | None =>
          if Ascii.eqb c "_" then
            match s' with
            | String c' s'' =>
                match digit_val c' with
                | Some d => int_digits s'' (10 * acc + d)
                | None => None
                end
            | EmptyString => None
            end
          else None
      end
  end.

(** An unsigned base-10 literal: at least one digit, single underscores
    allowed between digits. *)
Definition int_literal (s : string) : option Z :=
  match s with
  | String c s' =>
      match digit_val c with
      | Some d => int_digits s' d
      | None => None
      end
  | EmptyString => None
  end.

Definition int_signed (s : string) : option Z :=
  match s with
  | String "-" s' => Z.opp <$> int_literal s'
  | String "+" s' => int_literal s'
  | _ => int_literal s
  end.

(** [int(x)] for [x] a string or [None].  [int(None)] raises [TypeError];
    a string that is not an integer literal raises [ValueError].  The
    configurable cap of CPython on the number of digits of a decimal
    conversion is left out, here and in [str]. *)
Definition int (x : option string) : exn + Z :=
  match x with
  | None => inl TypeError
  | Some s =>
      match ascii_text s ≫= (λ a, int_signed (strip a)) with
      | Some z => inr z
      | None => inl ValueError
      end
  end.

(** ** [str(n)] for an integer [n] *)

Definition str (n : Z) : string := NilZero.string_of_int (Z.to_int n).

(** ** [list.sort(key=...)] with string keys

    CPython's sort is stable and orders by [<] on the keys.  It is modelled
    by a stable insertion sort; [stable_sort_unique] below shows that the
    result of a stable sort is determined by its input, so the choice of
    algorithm is immaterial. *)

Section Sort.
Context {A : Type} (key : A → string).

(** [x] goes after every element whose key is not greater. *)
Fixpoint insert (x : A) (l : list A) : list A :=
  match l with
  | [] => [x]
  | y :: l' => if String.ltb (key x) (key y) then x :: l else y :: insert x l'
  end.

Definition sort (l : list A) : list A :=
  fold_left (λ acc x, insert x acc) l [].
End Sort.

(** The order on keys: [lt] is Python's [<] on strings, [le] its [<=]. *)
Definition lt (a b : string) : Prop := String.ltb a b = true.
Definition le (a b : string) : Prop := String.ltb b a = false.

(** A list is non-decreasing by key: every element is [le] every later one. *)
Definition sorted_by {A : Type} (key : A → string) (l : list A) : Prop :=
  StronglySorted (λ x y, le (key x) (key y)) l.

End Py.

(** * The part of [xml.etree.ElementTree] the program uses *)

Module ET.

(** An element: its tag, its text ([None] when absent) and its child
    elements in document order.  Attributes and tail text are neither set nor
    read by the program and are left out. *)
#[warnings="-register-all"]
Inductive Element : Type :=
  mkElement { tag : string; text : option string; children : list Element }.

(** [ET.Element(tag)]: a new element without text or children. *)
Definition new (tag : string) : Element :=
  {| tag := tag; text := None; children := [] |}.

(** [parent.append(child)]. *)
Definition append (parent child : Element) : Element :=
  {| tag := tag parent; text := text parent;
     children := children parent ++ [child] |}.

(** [ET.SubElement(parent, tag)] creates a new element, appends it to
    [parent] and returns it.  The caller keeps a reference to the child that
    aliases the one stored in the parent; the reference is modelled by the
    position of the child in the parent, and an assignment to the child's
    text goes through the parent ([set_child_text]). *)
Definition SubElement (parent : Element) (tag : string) : Element * nat :=
  (append parent (new tag), length (children parent)).

Definition set_text (t : string) (e : Element) : Element :=
  {| tag := tag e; text := Some t; children := children e |}.

Definition set_child_text (parent : Element) (child : nat) (t : string) : Element :=
  {| tag := tag parent; text := text parent;
     children := alter (set_text t) child (children parent) |}.

(** ** Writing *)

(** [_escape_cdata]: the three characters escaped in element text. *)
Fixpoint escape_cdata (s : string) : string :=
  match s with
  | EmptyString => EmptyString
  | String "&" s' => "&amp;" +:+ escape_cdata s'
  | String "<" s' => "&lt;" +:+ escape_cdata s'
  | String ">" s' => "&gt;" +:+ escape_cdata s'
  | String c s' => String c (escape_cdata s')
  end.

(** Python truthiness of an element's text: present and not empty. *)
Definition truthy (t : option string) : bool :=
  match t with
  | Some (String _ _) => true
  | _ => false
  end.

(** [_serialize_xml] with [short_empty_elements=True]: an element with
    neither text nor children is written as [<tag />]. *)
Fixpoint serialize_xml (e : Element) : string :=
  match e with
  | mkElement tag text children =>
      "<" +:+ tag +:+
      (if truthy text || negb (bool_decide (children = []))
       then ">" +:+ escape_cdata (default EmptyString text)
                +:+ String.concat EmptyString (serialize_xml <$> children)
                +:+ "</" +:+ tag +:+ ">"
       else " />")
  end.

(** [ElementTree(root).write(fout, encoding=..., xml_declaration=...)]: the
    bytes sent to the file. *)
Definition write (root : Element) (encoding : string) (xml_declaration : bool)
    : string :=
  (if xml_declaration
   then "<?xml version='1.0' encoding='" +:+ encoding +:+ "'?>" +:+ String "010" EmptyString
   else EmptyString) +:+ serialize_xml root.

(** ** Reading back what was written

    The reader is not modelled on bytes.  What is modelled is the tree that
    [open(f, "r").read()] followed by [ET.fromstring] returns for the bytes
    [write] produced from a tree:
    - an element written without text, or with empty text, comes back with
      text [None];
    - reading in text mode turns a carriage return, alone or followed by a
      line feed, into a line feed;
    - a control character other than tab, line feed and carriage return, and
      the code points U+FFFE and U+FFFF, are not XML characters: the parser
      raises [ParseError].
    Tags are restricted to plain names (letters, digits, [_], [-], [.], not
    starting with a digit, [-] or [.]); for other tags the written bytes are
    taken not to parse.  Strings are well-formed UTF-8, which has no
    surrogates. *)

Definition xml_char (c : ascii) : bool :=
  match c with
  | "009" | "010" | "013" => true
  | _ => (32 <=? N_of_ascii c)%N
  end%char.

Fixpoint string_forallb (f : ascii → bool) (s : string) : bool :=
  match s with
  | EmptyString => true
  | String c s' => f c && string_forallb f s'
  end.

Fixpoint universal_newlines (s : string) : string :=
  match s with
  | EmptyString => EmptyString
  | String "013" s' =>
      String "010"
        match s' with
        | String "010" s'' => universal_newlines s''
        | _ => universal_newlines s'
        end
  | String c s' => String c (universal_newlines s')
  end.

Definition name_start_char (c : ascii) : bool :=
  let n := N_of_ascii c in
  ((65 <=? n) && (n <=? 90) || (97 <=? n) && (n <=? 122) || (n =? 95))%N.

Definition name_char (c : ascii) : bool :=
  let n := N_of_ascii c in
  name_start_char c || ((48 <=? n) && (n <=? 57) || (n =? 45) || (n =? 46))%N.

Definition plain_name (s : string) : bool :=
  match s with
  | String c s' => name_start_char c && string_forallb name_char s'
  | EmptyString => false
  end.

(** The UTF-8 form of U+FFFE or U+FFFF (EF BF BE, EF BF BF) occurs in [s]. *)
Fixpoint has_non_char (s : string) : bool :=
  match s with
  | EmptyString => false
  | String c s' =>
      match s' with
      | String c1 (String c2 _) =>
          Ascii.eqb c "239" && Ascii.eqb c1 "191" &&
          (Ascii.eqb c2 "190" || Ascii.eqb c2 "191")
      | _ => false
      end || has_non_char s'
  end.

(** The text is made of XML characters. *)
Definition xml_chars (s : string) : bool :=
  string_forallb xml_char s && negb (has_non_char s).

Definition read_text (t : option string) : option (option string) :=
  match t with
  | None => Some None
  | Some s =>
      if xml_chars s then
        match universal_newlines s with
        | EmptyString => Some None
        | s' => Some (Some s')
        end
      else None
  end.

Section MapOption.
Context {A B : Type} (f : A → option B).

(** [f] over a list, failing as soon as [f] fails. *)
Fixpoint map_option (l : list A) : option (list B) :=
  match l with
  | [] => Some []
  | x :: l' => y ← f x; l'' ← map_option l'; Some (y :: l'')
  end.
End MapOption.

Fixpoint read_back (e : Element) : option Element :=
  match e with
  | mkElement tag text children =>
      if plain_name tag then
        text' ← read_text text;
        children' ← map_option read_back children;
        Some (mkElement tag text' children')
      else None
  end.

(** A file: its bytes, and what reading it in text mode and handing the
    result to [ET.fromstring] yields (a root element, or the exception
    raised on the way). *)
Record file : Type := mkFile { bytes : string; parsed : Py.exn + Element }.

(** The file left by [write]. *)
Definition written (root : Element) (encoding : string) (xml_declaration : bool)
    : file :=
  {| bytes := write root encoding xml_declaration;
     parsed := from_option inr (inl Py.ParseError) (read_back root) |}.

End ET.

(** * The program state and its monad *)

(** [@dataclass(frozen=True) class Product]. *)
Module Product.
Record t : Type := mk { name : string; market : string; count : Z }.
End Product.
Abbreviation Product := Product.t.

(** [@dataclass class Staff]: the [products] list. *)
Record Staff : Type := mkStaff { products : list Product }.

(** What can go wrong when a file is written under a name:
    - [Refused e]: [open(name, "wb")] raises [e] (the empty name, a
      directory, a name in a missing directory, no write permission);
      nothing is written;
    - [Broken e remains]: the write raises [e] after [open] has emptied the
      file (a full disk); the file [remains] is left under the name;
    - [Sealed e]: the file is written, but [open(name, "r")] raises [e] for
      it (no read permission). *)
Inductive fault : Type :=
  | Refused (e : Py.exn)
  | Broken (e : Py.exn) (remains : ET.file)
  | Sealed (e : Py.exn).

(** What a method call can read and change: the [Staff] object it is called
    on and the files.  [files] maps the name of a data file to the file; a
    name without a file is a name [open(name, "r")] does not find.
    [faults] is part of the environment, which no call changes: it gives
    the names under which a file cannot be written, or not be read once
    written.  Names are taken as they are written: two names of one file
    are not identified.  The log file of line 114 is not one of [files]; see
    [Session] below. *)
Record World : Type := Build_World {
  self : Staff;
  files : gmap string ET.file;
  faults : gmap string fault
}.

(** A world without faults: under every name a file can be written and
    read back. *)
Definition mkWorld (staff : Staff) (fs : gmap string ET.file) : World :=
  Build_World staff fs ∅.

(** [Staff()]: the default factory gives an empty list. *)
Definition Staff_new : Staff := {| products := [] |}.

(** The outcome of a call: a returned value or a raised exception. *)
Inductive result (A : Type) : Type :=
  | Return (a : A)
  | Raise (e : Py.exn).
Arguments Return {A} a.
Arguments Raise {A} e.

(** A computation runs in a world and leaves a world behind, also when it
    raises: Python does not roll back assignments made before an exception. *)
Definition M (A : Type) : Type := World → result A * World.

Definition ret {A} (a : A) : M A := λ w, (Return a, w).
Definition raise {A} (e : Py.exn) : M A := λ w, (Raise e, w).
Definition bind {A B} (m : M A) (k : A → M B) : M B :=
  λ w, match m w with
       | (Return a, w') => k a w'
       | (Raise e, w') => (Raise e, w')
       end.

Declare Scope py_scope.
Delimit Scope py_scope with py.
Notation "x <- m ;; k" := (bind m (λ x, k))
  (at level 100, m at next level, right associativity) : py_scope.
Notation "m ;; k" := (bind m (λ _, k))
  (at level 100, right associativity) : py_scope.
Local Open Scope py_scope.

(** A library call that returns or raises without touching the world. *)
Definition lift {A} (r : Py.exn + A) : M A :=
  match r with
  | inl e => raise e
  | inr a => ret a
  end.

(** Reading [self.products], and writing it (by assignment or by an in-place
    update of the list it refers to, which nothing else refers to). *)
Definition get_products : M (list Product) := λ w, (Return (products (self w)), w).
Definition set_products (ps : list Product) : M unit :=
  λ w, (Return tt, {| self := {| products := ps |}; files := files w;
                      faults := faults w |}).

(** [for x in l: s = body(x, s)] with the loop-carried variables [s]. *)
Fixpoint for_in {A S} (l : list A) (body : A → S → M S) (s : S) : M S :=
  match l with
  | [] => ret s
  | x :: l' => s' <- body x s ;; for_in l' body s'
  end.

(** [for x in l: body(x)]. *)
Definition for_each {A} (l : list A) (body : A → M unit) : M unit :=
  for_in l (λ x _, body x) tt.

(** [with open(filename, "r", encoding="utf8") as fin: xml = fin.read()]
    followed by [ET.fromstring(xml, parser=ET.XMLParser(encoding="utf8"))]. *)
Definition read_and_parse (filename : string) : M ET.Element :=
  λ w, match files w !! filename with
       | None => (Raise Py.FileNotFoundError, w)
       | Some f => lift (ET.parsed f) w
       end.

(** [with open(filename, "wb") as fout: tree.write(fout, encoding=...,
    xml_declaration=...)].  Without a fault for the name, the file of that
    name is created or replaced; with one, see [fault]. *)
Definition write_tree (filename : string) (root : ET.Element)
    (encoding : string) (xml_declaration : bool) : M unit :=
  λ w, match faults w !! filename with
       | Some (Refused e) => (Raise e, w)
       | Some (Broken e remains) =>
           (Raise e,
            {| self := self w; files := <[filename := remains]> (files w);
               faults := faults w |})
       | Some (Sealed e) =>
           (Return tt,
            {| self := self w;
               files := <[filename := {| ET.bytes := ET.write root encoding xml_declaration;
                                         ET.parsed := inl e |}]> (files w);
               faults := faults w |})
       | None =>
           (Return tt,
            {| self := self w;
               files := <[filename := ET.written root encoding xml_declaration]>
                          (files w);
               faults := faults w |})
       end.

(** * The methods of [Staff] *)

(** [Staff.add] (lines 44-48). *)
Definition add (name market : string) (count : Z) : M unit :=
  if count <? 0 then
    raise (Py.IllegalCount count "Illegall count")
  else
    ps <- get_products ;;
    set_products (ps ++ [Product.mk name market count]) ;;
    ps <- get_products ;;
    set_products (Py.sort (λ product, Product.name product) ps).

(** [Staff.select] (lines 71-76). *)
Definition select (name : string) : M (list Product) :=
  ps <- get_products ;;
  for_in ps (λ product result,
    if String.eqb (Product.name product) name
    then ret (result ++ [product])
    else ret result) [].

(** Lines 87-94: the body of the inner loop of [load] for one child
    [element] of a product element; [name], [market] and [count] are the
    loop-carried local variables. *)
Definition load_child (element : ET.Element)
    (vars : option string * option string * option Z)
    : M (option string * option string * option Z) :=
  let '(name, market, count) := vars in
  vars <-
    (if String.eqb (ET.tag element) "name" then
       ret (ET.text element, market, count)
     else if String.eqb (ET.tag element) "market" then
       ret (name, ET.text element, count)
     else if String.eqb (ET.tag element) "count" then
       n <- lift (Py.int (ET.text element)) ;;
       ret (name, market, Some n)
     else ret (name, market, count)) ;;
  let '(name, market, count) := vars in
  match name, market, count with
  | Some name', Some market', Some count' =>
      ps <- get_products ;;
      set_products (ps ++ [Product.mk name' market' count'])
  | _, _, _ => ret tt
  end ;;
  ret (name, market, count).

(** Lines 85-94: the body of the outer loop, for one child of the root. *)
Definition load_product (product_element : ET.Element) : M unit :=
  for_in (ET.children product_element) load_child (None, None, None) ;;
  ret tt.

(** Lines 83-94: the part of [load] that follows parsing. *)
Definition load_tree (tree : ET.Element) : M unit :=
  set_products [] ;;
  for_each (ET.children tree) load_product.

(** [Staff.load] (lines 78-94). *)
Definition load (filename : string) : M unit :=
  tree <- read_and_parse filename ;;
  load_tree tree.

(** The tree [save] builds (lines 97-106). *)
Definition save_tree (ps : list Product) : ET.Element :=
  fold_left (λ root product,
    let product_element := ET.new "product" in
    let '(product_element, name_element) := ET.SubElement product_element "name" in
    let product_element :=
      ET.set_child_text product_element name_element (Product.name product) in
    let '(product_element, market_element) := ET.SubElement product_element "market" in
    let product_element :=
      ET.set_child_text product_element market_element (Product.market product) in
    let '(product_element, count_element) := ET.SubElement product_element "count" in
    let product_element :=
      ET.set_child_text product_element count_element (Py.str (Product.count product)) in
    ET.append root product_element) ps (ET.new "products").

(** [Staff.save] (lines 96-109). *)
Definition save (filename : string) : M unit :=
  ps <- get_products ;;
  write_tree filename (save_tree ps) "utf8" true.

(** * Auxiliary definitions used in the statements *)

(** Replacing the [products] list of the [Staff] object. *)
Definition with_products (ps : list Product) (w : World) : World :=
  {| self := {| products := ps |}; files := files w; faults := faults w |}.

(** The world with the file [f] under the name [filename]. *)
Definition with_file (filename : string) (f : ET.file) (w : World) : World :=
  {| self := self w; files := <[filename := f]> (files w); faults := faults w |}.

(** A call [add(name, market, count)], and the record it appends. *)
Definition call : Type := string * string * Z.
Definition call_record (c : call) : Product :=
  let '(name, market, count) := c in Product.mk name market count.
Definition call_count (c : call) : Z := let '(_, _, count) := c in count.

(** A sequence of [add] calls, one after the other. *)
Definition add_all (calls : list call) : M unit :=
  for_each calls (λ c, let '(name, market, count) := c in add name market count).

(** ** The records of a document, as the scan of [load] sees them *)

(** The last child with tag [t] among the children [cs] scanned so far. *)
Definition last_with_tag (t : string) (cs : list ET.Element) : option ET.Element :=
  last (filter (λ e, ET.tag e = t) cs).

(** The text observed for field [t] after scanning [cs]: the text of the last
    child with that tag, absent when there is no such child or it is empty. *)
Definition field_text (t : string) (cs : list ET.Element) : option string :=
  last_with_tag t cs ≫= ET.text.

(** The count observed after scanning [cs]. *)
Definition field_count (cs : list ET.Element) : option Z :=
  e ← last_with_tag "count" cs;
  match Py.int (ET.text e) with
  | inr n => Some n
  | inl _ => None
  end.

(** The record made of the three fields observed after scanning [cs], when
    all three have been observed. *)
Definition record_after (cs : list ET.Element) : option Product :=
  name ← field_text "name" cs;
  market ← field_text "market" cs;
  count ← field_count cs;
  Some (Product.mk name market count).

(** The loop-carried variables of the inner loop after scanning [cs]. *)
Definition vars_after (cs : list ET.Element)
    : option string * option string * option Z :=
  (field_text "name" cs, field_text "market" cs, field_count cs).

(** The records one product element contributes: one for every child after
    which all three fields have been observed, in document order. *)
Definition element_records (product_element : ET.Element) : list Product :=
  let cs := ET.children product_element in
  omap (λ k, record_after (take (S k) cs)) (seq 0 (length cs)).

(** The records of a document, in document order. *)
Definition parsed_records (tree : ET.Element) : list Product :=
  ET.children tree ≫= element_records.

(** A [count] child whose text [int] rejects. *)
Definition bad_count (e : ET.Element) : bool :=
  String.eqb (ET.tag e) "count" &&
  match Py.int (ET.text e) with inl _ => true | inr _ => false end.

(** Some child of the root has a [count] child whose text [int] rejects. *)
Definition has_bad_count (tree : ET.Element) : bool :=
  existsb (λ product_element, existsb bad_count (ET.children product_element))
          (ET.children tree).

(** The element [e] cut after its first [n] children. *)
Definition cut_children (n : nat) (e : ET.Element) : ET.Element :=
  ET.mkElement (ET.tag e) (ET.text e) (take n (ET.children e)).

(** The document [tree] cut inside its child at position [i], after that
    child's first [j] children: what [load] has scanned when it reaches child
    [j] of product element [i]. *)
Definition cut_document (i j : nat) (tree : ET.Element) : ET.Element :=
  ET.mkElement (ET.tag tree) (ET.text tree)
    (take i (ET.children tree) ++
     (cut_children j <$> option_list (ET.children tree !! i))).

(** No child of the product element follows the child that completes the
    three fields: scanning any proper, non-empty prefix of its children
    leaves some field unobserved. *)
Definition single_completion (product_element : ET.Element) : bool :=
  let cs := ET.children product_element in
  forallb (λ k, match record_after (take (S k) cs) with
                | None => true
                | Some _ => false
                end)
          (seq 0 (pred (length cs))).

(** The product element has no child with tag [t]. *)
Definition lacks (t : string) (product_element : ET.Element) : Prop :=
  ∀ c, c ∈ ET.children product_element → ET.tag c ≠ t.

(** A file holding the document [tree], as ElementTree writes it. *)
Definition document (tree : ET.Element) : ET.file := ET.written tree "utf8" true.

(** Building elements by hand. *)
Definition leaf (tag text : string) : ET.Element := ET.mkElement tag (Some text) [].
Definition node (tag : string) (children : list ET.Element) : ET.Element :=
  ET.mkElement tag None children.

(** The product element of the grammar: [name], [market] and [count]
    children, in this order, each with its text. *)
Definition product_xml (p : Product) : ET.Element :=
  node "product" [leaf "name" (Product.name p);
                  leaf "market" (Product.market p);
                  leaf "count" (Py.str (Product.count p))].

(** The document of the grammar for the records [ps]. *)
Definition products_xml (ps : list Product) : ET.Element :=
  node "products" (product_xml <$> ps).

(** ** What [save] writes *)







(** [new] is [old] with [p] put behind the records whose name is not
    greater and in front of those whose name is greater. *)
Definition inserted (p : Product) (old new : list Product) : Prop :=
  ∃ l1 l2, old = l1 ++ l2 ∧ new = l1 ++ p :: l2 ∧
    Forall (λ q, Py.le (Product.name q) (Product.name p)) l1 ∧
    Forall (λ q, Py.lt (Product.name p) (Product.name q)) l2.

(** The value [Py.int_digits] computes along a decimal numeral. *)
Fixpoint uint_val (d : Decimal.uint) (acc : Z) : Z :=
  match d with
  | Decimal.Nil => acc
  | Decimal.D0 d => uint_val d (10 * acc + 0)
  | Decimal.D1 d => uint_val d (10 * acc + 1)
  | Decimal.D2 d => uint_val d (10 * acc + 2)
  | Decimal.D3 d => uint_val d (10 * acc + 3)
  | Decimal.D4 d => uint_val d (10 * acc + 4)
  | Decimal.D5 d => uint_val d (10 * acc + 5)
  | Decimal.D6 d => uint_val d (10 * acc + 6)
  | Decimal.D7 d => uint_val d (10 * acc + 7)
  | Decimal.D8 d => uint_val d (10 * acc + 8)
  | Decimal.D9 d => uint_val d (10 * acc + 9)
  end.

Definition no_space (s : string) : bool :=
  ET.string_forallb (λ c, negb (Py.is_space c)) s.

(** Every character of [s] is an ASCII character that [int] keeps as it
    is. *)
Definition plain_ascii (s : string) : bool :=
  ET.string_forallb (λ c, (N_of_ascii c <? 127)%N) s.

(** ** Definitions for the further properties *)

(** The tag is none of the three field tags [load] looks at. *)
Definition other_tag (e : ET.Element) : Prop :=
  ET.tag e ≠ "name" ∧ ET.tag e ≠ "market" ∧ ET.tag e ≠ "count".




(** The record has a name and a market. *)
Definition has_name_and_market (p : Product) : Prop :=
  Product.name p ≠ EmptyString ∧ Product.market p ≠ EmptyString.

#[global] Instance has_name_and_market_dec (p : Product) :
  Decision (has_name_and_market p).
Proof. unfold has_name_and_market. apply _. Defined.

(** * The table of [Staff.__str__] *)

(** The string operations [__str__] uses. *)
Module Fmt.

(** A UTF-8 continuation byte (10xxxxxx). *)
Definition continuation (c : ascii) : bool :=
  let n := N_of_ascii c in ((128 <=? n) && (n <? 192))%N.

(** [len(s)]: the number of code points of [s], that is of its bytes that
    are not continuation bytes.  Field widths count code points. *)
Fixpoint len (s : string) : nat :=
  match s with
  | EmptyString => 0
  | String c s' => (if continuation c then 0 else 1) + len s'
  end.

(** [s * n]. *)
Fixpoint mul (s : string) (n : nat) : string :=
  match n with
  | 0%nat => EmptyString
  | S n' => s +:+ mul s n'
  end.

(** The format specifications [<w], [>w] and [^w] applied to a string, or to
    an integer through its [str]: padding with spaces up to width [w], never
    cutting.  Centering puts the smaller half of the padding in front. *)
Definition format_left (width : nat) (s : string) : string :=
  s +:+ mul " " (width - len s).

Definition format_right (width : nat) (s : string) : string :=
  mul " " (width - len s) +:+ s.

Definition format_center (width : nat) (s : string) : string :=
  let pad := (width - len s)%nat in
  mul " " (pad / 2) +:+ s +:+ mul " " (pad - pad / 2).

(** [enumerate(l, start)]. *)
Definition enumerate {A : Type} (l : list A) (start : Z) : list (Z * A) :=
  imap (λ i x, (start + Z.of_nat i, x)) l.

(** [sep.join(l)]. *)
Definition join (sep : string) (l : list string) : string := String.concat sep l.

End Fmt.

(** Line 53: the border line. *)
Definition table_border : string :=
  "+-" +:+ Fmt.mul "-" 4 +:+ "-+-" +:+ Fmt.mul "-" 30 +:+ "-+-" +:+
  Fmt.mul "-" 20 +:+ "-+-" +:+ Fmt.mul "-" 10 +:+ "-+".

(** Lines 56-58: the header line. *)
Definition table_header : string :=
  "| " +:+ Fmt.format_center 4 "№" +:+ " | " +:+
  Fmt.format_center 30 "Название продукта" +:+ " | " +:+
  Fmt.format_center 20 "Имя магазина" +:+ " | " +:+
  Fmt.format_center 10 "Стоимость" +:+ " |".

(** Lines 64-66: the line of one product. *)
Definition table_row (idx : Z) (product : Product) : string :=
  "| " +:+ Fmt.format_right 4 (Py.str idx) +:+ " | " +:+
  Fmt.format_left 30 (Product.name product) +:+ " | " +:+
  Fmt.format_left 20 (Product.market product) +:+ " | " +:+
  Fmt.format_right 10 (Py.str (Product.count product)) +:+ " |".

(** The list [table] that [__str__] builds (lines 52-68). *)
Definition Staff_table : M (list string) :=
  let table := [] in
  let line := table_border in
  let table := table ++ [line] in
  let table := table ++ [table_header] in
  let table := table ++ [line] in
  ps <- get_products ;;
  table <- for_in (Fmt.enumerate ps 1)
             (λ '(idx, product) table, ret (table ++ [table_row idx product])) table ;;
  ret (table ++ [line]).

(** [Staff.__str__] (lines 50-69). *)
Definition Staff_str : M string :=
  table <- Staff_table ;;
  ret (Fmt.join (String "010" EmptyString) table).

(** The fields of the record fit the columns of the table. *)
Definition fits_columns (p : Product) : Prop :=
  (Fmt.len (Product.name p) ≤ 30)%nat ∧ (Fmt.len (Product.market p) ≤ 20)%nat ∧
  (Fmt.len (Py.str (Product.count p)) ≤ 10)%nat.

(** * The command loop (lines 112-180) *)

(** The string methods the loop uses. *)
Module Str.

(** An ASCII white-space character of [str.split]: tab to carriage return,
    the four separators 28 to 31, and the space. *)
Definition space1 (c : ascii) : bool :=
  let n := N_of_ascii c in
  ((9 <=? n) && (n <=? 13) || (28 <=? n) && (n <=? 31) || (n =? 32))%N.

(** The two-byte white space: U+0085 and U+00A0. *)
Definition space2 (c c1 : ascii) : bool :=
  let n := N_of_ascii c in
  let n1 := N_of_ascii c1 in
  ((n =? 194) && ((n1 =? 133) || (n1 =? 160)))%N.

(** The three-byte white space: U+1680, U+2000 to U+200A, U+2028, U+2029,
    U+202F, U+205F and U+3000. *)
Definition space3 (c c1 c2 : ascii) : bool :=
  let n := N_of_ascii c in
  let n1 := N_of_ascii c1 in
  let n2 := N_of_ascii c2 in
  ((n =? 225) && (n1 =? 154) && (n2 =? 128)
   || (n =? 226) && (n1 =? 128)
      && ((128 <=? n2) && (n2 <=? 138) || (n2 =? 168) || (n2 =? 169) || (n2 =? 175))
   || (n =? 226) && (n1 =? 129) && (n2 =? 159)
   || (n =? 227) && (n1 =? 128) && (n2 =? 128))%N.

(** [s] starts with a white-space character. *)
Definition starts_with_space (s : string) : bool :=
  match s with
  | String c s1 =>
      space1 c ||
      match s1 with
      | String c1 s2 =>
          space2 c c1 ||
          match s2 with
          | String c2 _ => space3 c c1 c2
          | EmptyString => false
          end
      | EmptyString => false
      end
  | EmptyString => false
  end.

(** [s] without its leading white space. *)
Fixpoint skip_spaces (s : string) : string :=
  match s with
  | String c s1 =>
      if space1 c then skip_spaces s1
      else
        match s1 with
        | String c1 s2 =>
            if space2 c c1 then skip_spaces s2
            else
              match s2 with
              | String c2 s3 => if space3 c c1 c2 then skip_spaces s3 else s
              | EmptyString => s
              end
        | EmptyString => s
        end
  | EmptyString => EmptyString
  end.

(** The first word of [s] (up to the next white space) and what follows. *)
Fixpoint break_word (s : string) : string * string :=
  match s with
  | String c s1 =>
      if starts_with_space s then (EmptyString, s)
      else let '(word, rest) := break_word s1 in (String c word, rest)
  | EmptyString => (EmptyString, EmptyString)
  end.

(** [s.split(maxsplit=1)]: the first word and, when something other than
    white space follows it, the rest of the string from there on. *)
Definition split_maxsplit_1 (s : string) : list string :=
  match skip_spaces s with
  | EmptyString => []
  | s0 =>
      let '(word, rest) := break_word s0 in
      match skip_spaces rest with
      | EmptyString => [word]
      | rest' => [word; rest']
      end
  end.

(** [s.startswith(p)]. *)
Definition startswith (s p : string) : bool := String.prefix p s.

(** An ASCII upper-case letter. *)
Definition upper_letter (c : ascii) : bool :=
  let n := N_of_ascii c in ((65 <=? n) && (n <=? 90))%N.

(** [s] has no ASCII upper-case letter. *)
Definition no_upper (s : string) : bool :=
  ET.string_forallb (λ c, negb (upper_letter c)) s.

(** Lower-casing of the ASCII letters only.  [str.lower] itself is a
    parameter of the loop below; on text without other cased letters it is
    this function. *)
Definition ascii_lower_char (c : ascii) : ascii :=
  if upper_letter c then ascii_of_N (N_of_ascii c + 32) else c.

Fixpoint ascii_lower (s : string) : string :=
  match s with
  | EmptyString => EmptyString
  | String c s' => String (ascii_lower_char c) (ascii_lower s')
  end.

End Str.

(** The levels of [logging] the program uses. *)
Inductive level : Type := INFO | WARNING | ERROR.

(** What the [try] block can raise: an exception that escapes a [Staff]
    method or [int], [UnknownCommandError] (lines 23-30), the [IndexError] of
    [parts[1]], and the [EOFError] of [input]. *)
Inductive exception : Type :=
  | Escaped (e : Py.exn)
  | UnknownCommandError (command message : string)
  | IndexError
  | EOFError.

(** A piece of written text: a string, or the text [str] gives a built-in
    exception, which is not modelled. *)
Inductive item : Type :=
  | Str (s : string)
  | StrOf (e : exception).


(** The session: the world of the [staff] object, the lines still to be read
    from standard input, what has been written to standard output and to
    standard error, and the records sent to the log, oldest first.  A text is
    a list of items standing for their concatenation.

    The records of [log] are what the program appends to the file
    [log_file].  That file is kept apart from the data files of the world:
    what a [save] or [load] command that names the log file does to it, or
    reads from it, is not described, and the statements about the files
    under the command loop are about names other than [log_file]. *)
Record Session : Type := mkSession {
  world : World;
  stdin : list string;
  stdout : list string;
  stderr : list (list item);
  log : list (level * list item)
}.

Inductive outcome (A : Type) : Type :=
  | Returned (a : A)
  | Raised (e : exception).
Arguments Returned {A} a.
Arguments Raised {A} e.

Definition IO (A : Type) : Type := Session → outcome A * Session.

Definition io_ret {A} (a : A) : IO A := λ s, (Returned a, s).
Definition io_raise {A} (e : exception) : IO A := λ s, (Raised e, s).
Definition io_bind {A B} (m : IO A) (k : A → IO B) : IO B :=
  λ s, match m s with
       | (Returned a, s') => k a s'
       | (Raised e, s') => (Raised e, s')
       end.

Declare Scope io_scope.
Delimit Scope io_scope with io.
Notation "x <- m ;; k" := (io_bind m (λ x, k))
  (at level 100, m at next level, right associativity) : io_scope.
Notation "m ;; k" := (io_bind m (λ _, k))
  (at level 100, right associativity) : io_scope.

(** [try: body except Exception as exc: handler(exc)]. *)
Definition try_except {A} (body : IO A) (handler : exception → IO A) : IO A :=
  λ s, match body s with
       | (Returned a, s') => (Returned a, s')
       | (Raised e, s') => handler e s'
       end.

(** A call of a method of [staff], or of a builtin that can raise. *)
Definition staff_call {A} (m : M A) : IO A :=
  λ s, match m (world s) with
       | (Return a, w') =>
           (Returned a, mkSession w' (stdin s) (stdout s) (stderr s) (log s))
       | (Raise e, w') =>
           (Raised (Escaped e), mkSession w' (stdin s) (stdout s) (stderr s) (log s))
       end.

(** [input(prompt)]: the prompt goes to standard output, then a line is
    read; at the end of the input [EOFError] is raised. *)
Definition input (prompt : string) : IO string :=
  λ s, match stdin s with
       | line :: rest =>
           (Returned line,
            mkSession (world s) rest (stdout s ++ [prompt]) (stderr s) (log s))
       | [] =>
           (Raised EOFError,
            mkSession (world s) [] (stdout s ++ [prompt]) (stderr s) (log s))
       end.

(** [print(text)]: the text and a line feed. *)
Definition print (text : string) : IO unit :=
  λ s, (Returned tt,
        mkSession (world s) (stdin s) (stdout s ++ [text +:+ String "010" EmptyString])
                  (stderr s) (log s)).

(** [print(exc, file=sys.stderr)], given the text of [exc]. *)
Definition print_stderr (text : list item) : IO unit :=
  λ s, (Returned tt,
        mkSession (world s) (stdin s) (stdout s) (stderr s ++ [text]) (log s)).

(** [logging.info], [logging.warning] and [logging.error]: the level is at
    least [INFO], so every record is kept. *)
Definition logging (lvl : level) (message : list item) : IO unit :=
  λ s, (Returned tt,
        mkSession (world s) (stdin s) (stdout s) (stderr s) (log s ++ [(lvl, message)])).

(** [parts[1]]. *)
Definition index_1 (parts : list string) : IO string :=
  match parts !! 1%nat with
  | Some part => io_ret part
  | None => io_raise IndexError
  end.

(** [for x in l: body(x)] in the loop. *)
Fixpoint io_for_each {A} (l : list A) (body : A → IO unit) : IO unit :=
  match l with
  | [] => io_ret tt
  | x :: l' => (body x ;; io_for_each l' body)%io
  end.

(** [str(exc)]: [IllegalCount.__str__] (lines 18-20) logs its text at level
    [INFO] and returns it; [UnknownCommandError.__str__] (lines 29-30)
    returns its text. *)
Definition exception_str (exc : exception) : IO (list item) :=
  match exc with
  | Escaped (Py.IllegalCount count message) =>
      (logging INFO [Str (Py.str count +:+ " -> " +:+ message)] ;;
       io_ret [Str (Py.str count +:+ " -> " +:+ message)])%io
  | UnknownCommandError command message =>
      io_ret [Str (command +:+ " -> " +:+ message)]
  | _ => io_ret [StrOf exc]
  end.

(** Lines 167-175: the help text. *)
Definition help_lines : list string :=
  ["Список команд:" +:+ String "010" EmptyString;
   "add - добавить продукт;";
   "list - вывести список продуктов;";
   "select <стаж> - запросить продукты с именем;";
   "load <имя_файла> - загрузить данные из файла;";
   "save <имя_файла> - сохранить данные в файл;";
   "help - отобразить справку;";
   "exit - завершить работу с программой."].

(** Lines 124-177: the branches on the command read. *)
Definition dispatch (command : string) : IO bool :=
  (if String.eqb command "exit" then
     io_ret true
   else if String.eqb command "add" then
     name <- input "Название товара? " ;;
     market <- input "Магазин? " ;;
     text <- input "Стоимость? " ;;
     count <- staff_call (lift (Py.int (Some text))) ;;
     staff_call (add name market count) ;;
     logging INFO [Str ("Добавлен продукт: " +:+ name +:+ ", " +:+ market +:+ ", "
                        +:+ "стоимостью в " +:+ Py.str count +:+ " рублей.")] ;;
     io_ret false
   else if String.eqb command "list" then
     table <- staff_call Staff_str ;;
     print table ;;
     logging INFO [Str "Отображен список продуктов."] ;;
     io_ret false
   else if Str.startswith command "select " then
     let parts := Str.split_maxsplit_1 command in
     query <- index_1 parts ;;
     selected <- staff_call (select query) ;;
     match selected with
     | _ :: _ =>
         io_for_each (Fmt.enumerate selected 1)
           (λ '(idx, product),
              print (Fmt.format_right 4 (Py.str idx) +:+ ": " +:+ Product.name product)) ;;
         query <- index_1 parts ;;
         logging INFO [Str ("Найдено " +:+ Py.str (Z.of_nat (length selected))
                            +:+ " продуктов со " +:+ "названием " +:+ query)]
     | [] =>
         print "Продукты с заданным именем не найдены." ;;
         query <- index_1 parts ;;
         logging WARNING [Str ("Работники с именем " +:+ query +:+ " не найдены.")]
     end ;;
     io_ret false
   else if Str.startswith command "load " then
     let parts := Str.split_maxsplit_1 command in
     filename <- index_1 parts ;;
     staff_call (load filename) ;;
     filename <- index_1 parts ;;
     logging INFO [Str ("Загружены данные из файла " +:+ filename +:+ ".")] ;;
     io_ret false
   else if Str.startswith command "save " then
     let parts := Str.split_maxsplit_1 command in
     filename <- index_1 parts ;;
     staff_call (save filename) ;;
     filename <- index_1 parts ;;
     logging INFO [Str ("Сохранены данные в файл " +:+ filename +:+ ".")] ;;
     io_ret false
   else if String.eqb command "help" then
     io_for_each help_lines print ;;
     io_ret false
   else
     io_raise (UnknownCommandError command "Unknown command"))%io.

(** Lines 178-180: the handler of [except Exception as exc].  The text of
    the exception is taken twice, once for the log and once for standard
    error. *)
Definition report (exc : exception) : IO bool :=
  (text <- exception_str exc ;;
   logging ERROR (Str "Ошибка: " :: text) ;;
   text <- exception_str exc ;;
   print_stderr text ;;
   io_ret false)%io.

(** Lines 120-180: one pass through the body of [while True]; [lower] stands
    for [str.lower].  The result tells whether the loop was left by
    [break]. *)
Definition iteration (lower : string → string) : IO bool :=
  try_except
    (line <- input ">>> " ;;
     dispatch (lower line))%io
    report.

(** The loop, for at most [fuel] passes.  The result is [true] when the loop
    was left by [break] and [false] when the passes ran out. *)
Fixpoint main_loop (lower : string → string) (fuel : nat) : IO bool :=
  match fuel with
  | 0%nat => io_ret false
  | S fuel' =>
      (stop <- iteration lower ;;
       if stop then io_ret true else main_loop lower fuel')%io
  end.

(** The session at the start of the program: [staff = Staff()], nothing read
    or written yet. *)
Definition start (fs : gmap string ET.file) (lines : list string) : Session :=
  mkSession (mkWorld Staff_new fs) lines [] [] [].

(** The session after the prompt [>>> ] was written and a line read. *)
Definition prompted (s : Session) : Session :=
  mkSession (world s) (tl (stdin s)) (stdout s ++ [">>> "]) (stderr s) (log s).

(** What the [select] command writes to standard output for the records
    found. *)
Definition select_lines (selected : list Product) : list string :=
  match selected with
  | [] => ["Продукты с заданным именем не найдены." +:+ String "010" EmptyString]
  | _ => (λ x, (Fmt.format_right 4 (Py.str x.1) +:+ ": " +:+ Product.name x.2)
               +:+ String "010" EmptyString) <$> Fmt.enumerate selected 1
  end.

(** The text of an exception, as [exception_str] returns it. *)
Definition exception_text (exc : exception) : list item :=
  match exc with
  | Escaped (Py.IllegalCount count message) =>
      [Str (Py.str count +:+ " -> " +:+ message)]
  | UnknownCommandError command message => [Str (command +:+ " -> " +:+ message)]
  | _ => [StrOf exc]
  end.

(** The log record that taking the text of an exception leaves behind. *)
Definition text_record (exc : exception) : list (level * list item) :=
  match exc with
  | Escaped (Py.IllegalCount _ _) => [(INFO, exception_text exc)]
  | _ => []
  end.

(** The session after the handler has reported [exc]. *)
Definition reported (exc : exception) (s : Session) : Session :=
  mkSession (world s) (stdin s) (stdout s)
    (stderr s ++ [exception_text exc])
    (log s ++ text_record exc ++ [(ERROR, Str "Ошибка: " :: exception_text exc)]
           ++ text_record exc).

(** A computation of the loop that never returns [true]. *)
Definition never_stops (m : IO bool) : Prop :=
  ∀ s r s', m s = (r, s') → r ≠ Returned true.

(** The command is one the chain of lines 124-175 has a branch for. *)
Definition recognised (command : string) : bool :=
  String.eqb command "exit" || String.eqb command "add" || String.eqb command "list"
  || Str.startswith command "select " || Str.startswith command "load "
  || Str.startswith command "save " || String.eqb command "help".

(** The log record of the [select] command. *)
Definition select_record (query : string) (selected : list Product)
    : level * list item :=
  match selected with
  | [] => (WARNING, [Str ("Работники с именем " +:+ query +:+ " не найдены.")])
  | _ => (INFO, [Str ("Найдено " +:+ Py.str (Z.of_nat (length selected))
                      +:+ " продуктов со " +:+ "названием " +:+ query)])
  end.

(** The session after a command line was read and [m] was called on the
    [staff] object. *)
Definition called {A} (m : M A) (s : Session) : Session :=
  mkSession (m (world s)).2 (tl (stdin s)) (stdout s ++ [">>> "]) (stderr s) (log s).

(** The session with one more record in the log. *)
Definition logged (record : level * list item) (s : Session) : Session :=
  mkSession (world s) (stdin s) (stdout s) (stderr s) (log s ++ [record]).

(** [m] leaves the part [f] of the world as it finds it, however it ends. *)
Definition io_keeps {A B} (f : World → B) (m : IO A) : Prop :=
  ∀ s, f (world (m s).2) = f (world s).

(** [m] only reads on: the input left after [m] is an end of the input
    before it. *)
Definition io_consumes {A} (m : IO A) : Prop :=
  ∀ s, stdin (m s).2 `suffix_of` stdin s.

(** * Facts about the builtins *)

Example int_examples :
  Py.int (Some " 5 ") = inr 5 ∧ Py.int (Some "-5") = inr (-5) ∧
  Py.int (Some "1_000") = inr 1000 ∧ Py.int (Some "007") = inr 7 ∧
  Py.int (Some "1__0") = inl Py.ValueError ∧ Py.int (Some "- 5") = inl Py.ValueError ∧
  Py.int (Some EmptyString) = inl Py.ValueError ∧ Py.int (Some "5.0") = inl Py.ValueError ∧
  Py.int None = inl Py.TypeError ∧ Py.str (-5) = "-5" ∧ Py.str 0 = "0" ∧
  Py.str 1203 = "1203".
Proof. repeat split; reflexivity. Qed.

(** Digits and white space of other scripts: full-width and Arabic-Indic
    digits, a no-break space and an ideographic space around the literal.
    The information separators (codes 28 to 31) are not stripped, and
    superscript digits are not decimal digits. *)
Example int_unicode_examples :
  Py.int (Some "１２") = inr 12 ∧ Py.int (Some "-٣٤") = inr (-34) ∧
  Py.int (Some "1２_３") = inr 123 ∧
  Py.int (Some (String "194" (String "160" "5"))) = inr 5 ∧
  Py.int (Some "　７　") = inr 7 ∧
  Py.int (Some (String "028" "5")) = inl Py.ValueError ∧
  Py.int (Some "²") = inl Py.ValueError ∧
  Py.int (Some "１ ２") = inl Py.ValueError ∧
  Py.int (Some (String "255" "5")) = inl Py.ValueError.
Proof. repeat split; reflexivity. Qed.

Example sort_examples :
  Py.sort fst [("b", 1); ("a", 2); ("b", 3); ("B", 4); ("a", 5); ("aa", 6)]
  = [("B", 4); ("a", 2); ("a", 5); ("aa", 6); ("b", 1); ("b", 3)].
Proof. reflexivity. Qed.

Example write_example :
  ET.write (ET.mkElement "r" None [ET.mkElement "a" (Some "x<y & z") [];
                                   ET.mkElement "b" (Some EmptyString) [];
                                   ET.mkElement "c" None []]) "utf8" true
  = "<?xml version='1.0' encoding='utf8'?>" +:+ String "010"
    "<r><a>x&lt;y &amp; z</a><b /><c /></r>".
Proof. reflexivity. Qed.


Section IntStr.
Import Decimal.

Lemma int_digits_string_of_uint d acc :
  Py.int_digits (NilEmpty.string_of_uint d) acc = Some (uint_val d acc).
Proof. revert acc. induction d; intros acc; simpl; auto. Qed.

Lemma uint_val_of_uint_acc d p :
  Z.pos (Pos.of_uint_acc d p) = uint_val d (Z.pos p).
Proof.
  revert p. induction d; intros p; simpl; auto; rewrite IHd; f_equal; lia.
Qed.

Lemma uint_val_of_uint d : Z.of_N (Pos.of_uint d) = uint_val d 0.
Proof.
  induction d; simpl; auto; apply uint_val_of_uint_acc.
Qed.

Lemma lstrip_no_space s : no_space s = true → Py.lstrip s = s.
Proof.
  unfold no_space. destruct s as [|c s]; simpl; [done|].
  destruct (Py.is_space c); simpl; [discriminate|done].
Qed.

Lemma rstrip_no_space s : no_space s = true → Py.rstrip s = s.
Proof.
  unfold no_space. induction s as [|c s IH]; simpl; [done|].
  intros [Hc Hs]%andb_prop. rewrite IH by done.
  destruct s; [|done]. destruct (Py.is_space c); [discriminate|done].
Qed.

Lemma strip_no_space s : no_space s = true → Py.strip s = s.
Proof.
  intros H. unfold Py.strip. rewrite lstrip_no_space by done.
  by apply rstrip_no_space.
Qed.

Lemma no_space_string_of_uint d : no_space (NilEmpty.string_of_uint d) = true.
Proof. unfold no_space. induction d; simpl; auto. Qed.

Lemma int_literal_string_of_uint d :
  d ≠ Nil →
  Py.int_literal (NilEmpty.string_of_uint d) = Some (uint_val d 0).
Proof.
  destruct d; intros Hd; [done|..]; simpl;
    apply int_digits_string_of_uint.
Qed.

Lemma int_signed_string_of_uint d :
  d ≠ Nil →
  Py.int_signed (NilEmpty.string_of_uint d) = Some (uint_val d 0).
Proof.
  intros Hd. rewrite <- (int_literal_string_of_uint d Hd).
  by destruct d.
Qed.

Lemma ascii_text_plain s : plain_ascii s = true → Py.ascii_text s = Some s.
Proof.
  unfold plain_ascii, Py.ascii_text.
  induction s as [|c s IH]; [done|]. cbn [ET.string_forallb Py.code_points].
  intros [Hc Hs]%andb_prop. specialize (IH Hs).
  assert ((N_of_ascii c <? 128)%N = true) as ->.
  { apply N.ltb_lt. apply N.ltb_lt in Hc. lia. }
  destruct (Py.code_points s) as [cps|]; [|done]. simpl in IH |- *.
  unfold Py.to_ascii. rewrite Hc, IH. simpl. by rewrite ascii_N_embedding.
Qed.

Lemma plain_string_of_uint d : plain_ascii (NilEmpty.string_of_uint d) = true.
Proof. unfold plain_ascii. induction d; simpl; auto. Qed.

(** [int] of a text of plain ASCII characters without white space is the
    value of the text as an ASCII literal. *)
Lemma int_plain (s : string) :
  plain_ascii s = true → no_space s = true →
  Py.int (Some s) = from_option inr (inl Py.ValueError) (Py.int_signed s).
Proof.
  intros Hplain Hspace. unfold Py.int.
  rewrite ascii_text_plain by done. simpl.
  rewrite strip_no_space by done. by destruct (Py.int_signed s).
Qed.

(** [int(str(n)) == n] for every integer [n]. *)
Lemma int_str (n : Z) : Py.int (Some (Py.str n)) = inr n.
Proof.
  destruct n as [|p|p]; [reflexivity|..]; unfold Py.str; simpl Z.to_int;
    pose proof (Unsigned.to_uint_nonnil p) as Hnil;
    pose proof (Unsigned.of_to p) as Hval;
    apply (f_equal Z.of_N) in Hval; rewrite uint_val_of_uint in Hval;
    simpl in Hval.
  - unfold NilZero.string_of_int, NilZero.string_of_uint.
    destruct (Pos.to_uint p) eqn:E; [done|..];
      rewrite <- E in *; clear E;
      rewrite int_plain
        by (apply plain_string_of_uint || apply no_space_string_of_uint);
      rewrite int_signed_string_of_uint by done; simpl; by rewrite Hval.
  - unfold NilZero.string_of_int, NilZero.string_of_uint.
    destruct (Pos.to_uint p) eqn:E; [done|..];
      rewrite <- E in *; clear E;
      (rewrite int_plain
         by (simpl; apply plain_string_of_uint
             || (simpl; apply no_space_string_of_uint)));
      simpl; rewrite int_literal_string_of_uint by done;
      simpl; by rewrite Hval.
Qed.
End IntStr.

(** ** The order on strings *)

Section StringOrder.

Lemma compare_not_Gt_trans a b c :
  String.compare a b ≠ Gt → String.compare b c ≠ Gt → String.compare a c ≠ Gt.
Proof.
  revert b c. induction a as [|x a IH]; intros [|y b] [|z c]; simpl; try done.
  unfold Ascii.compare.
  destruct (N.compare_spec (N_of_ascii x) (N_of_ascii y)) as [Exy|Lxy|Gxy];
    destruct (N.compare_spec (N_of_ascii y) (N_of_ascii z)) as [Eyz|Lyz|Gyz];
    destruct (N.compare_spec (N_of_ascii x) (N_of_ascii z)) as [Exz|Lxz|Gxz];
    try done; try lia.
  apply IH.
Qed.

Lemma le_compare a b : Py.le a b ↔ String.compare a b ≠ Gt.
Proof.
  unfold Py.le, String.ltb. rewrite (String.compare_antisym a b).
  destruct (String.compare b a); simpl; split; done.
Qed.

Lemma le_refl a : Py.le a a.
Proof.
  unfold Py.le, String.ltb.
  pose proof (String.compare_antisym a a) as H.
  destruct (String.compare a a); done.
Qed.

Lemma le_trans a b c : Py.le a b → Py.le b c → Py.le a c.
Proof. rewrite !le_compare. apply compare_not_Gt_trans. Qed.

Lemma le_antisym a b : Py.le a b → Py.le b a → a = b.
Proof.
  rewrite le_compare. unfold Py.le, String.ltb. intros Hab Hba.
  apply String.compare_eq_iff. destruct (String.compare a b); done.
Qed.

Lemma lt_le a b : Py.lt a b → Py.le a b.
Proof.
  unfold Py.lt. rewrite le_compare. unfold String.ltb.
  destruct (String.compare a b); done.
Qed.

Lemma lt_not_le a b : Py.lt a b → ¬ Py.le b a.
Proof. unfold Py.lt, Py.le. congruence. Qed.

Lemma lt_le_trans a b c : Py.lt a b → Py.le b c → Py.lt a c.
Proof.
  intros Hab Hbc. destruct (String.ltb a c) eqn:E; [done|].
  exfalso. apply (lt_not_le a b Hab). by apply (le_trans b c a).
Qed.

Lemma lt_irrefl a : ¬ Py.lt a a.
Proof. intros H. apply (lt_not_le a a H), le_refl. Qed.

End StringOrder.

(** ** The stable sort *)

Section SortFacts.
Context {A : Type} (key : A → string).

(** Where [insert] puts the new element: behind a prefix whose keys are not
    greater, in front of a suffix that is empty or starts with a greater key. *)
Lemma insert_split x l :
  ∃ l1 l2, l = l1 ++ l2 ∧ Py.insert key x l = l1 ++ x :: l2 ∧
           Forall (λ y, Py.le (key y) (key x)) l1 ∧
           match l2 with [] => True | y :: _ => Py.lt (key x) (key y) end.
Proof.
  induction l as [|y l IH]; simpl.
  - by exists [], [].
  - destruct (String.ltb (key x) (key y)) eqn:E.
    + by exists [], (y :: l).
    + destruct IH as (l1 & l2 & -> & -> & Hl1 & Hl2).
      exists (y :: l1), l2. repeat split; [|done]. by constructor.
Qed.

(** In a sorted list the whole suffix has greater keys. *)
Lemma insert_split_sorted x l :
  Py.sorted_by key l →
  ∃ l1 l2, l = l1 ++ l2 ∧ Py.insert key x l = l1 ++ x :: l2 ∧
           Forall (λ y, Py.le (key y) (key x)) l1 ∧
           Forall (λ y, Py.lt (key x) (key y)) l2.
Proof.
  intros Hl. destruct (insert_split x l) as (l1 & l2 & -> & Hins & Hl1 & Hl2).
  exists l1, l2. repeat split; [done..|].
  apply StronglySorted_app_1_r in Hl.
  destruct l2 as [|y l2]; [done|].
  apply StronglySorted_cons in Hl as [Hy _]. constructor; [done|].
  eapply Forall_impl; [exact Hy|]. intros z Hz. by eapply lt_le_trans.
Qed.

Lemma insert_Permutation x l : Py.insert key x l ≡ₚ l ++ [x].
Proof.
  destruct (insert_split x l) as (l1 & l2 & -> & -> & _).
  rewrite <- (assoc_L (++)). apply Permutation_app_head.
  apply Permutation_cons_append.
Qed.

Lemma insert_sorted x l :
  Py.sorted_by key l → Py.sorted_by key (Py.insert key x l).
Proof.
  intros Hl.
  destruct (insert_split_sorted x l Hl) as (l1 & l2 & -> & -> & Hl1 & Hl2).
  unfold Py.sorted_by in *. apply StronglySorted_app in Hl as (H12 & H1 & H2).
  apply StronglySorted_app_2; [|done|].
  - intros y z Hy [->|Hz]%elem_of_cons.
    + by eapply Forall_forall in Hl1.
    + by apply H12.
  - constructor; [done|]. eapply Forall_impl; [exact Hl2|].
    intros z Hz. by apply lt_le.
Qed.

Lemma insert_last x l :
  Forall (λ y, Py.le (key y) (key x)) l → Py.insert key x l = l ++ [x].
Proof.
  induction 1 as [|y l Hy _ IH]; simpl; [done|].
  unfold Py.le in Hy. by rewrite Hy, IH.
Qed.

Lemma sort_snoc l x : Py.sort key (l ++ [x]) = Py.insert key x (Py.sort key l).
Proof. unfold Py.sort. by rewrite fold_left_app. Qed.

Lemma sort_sorted l : Py.sorted_by key (Py.sort key l).
Proof.
  induction l as [|x l IH] using rev_ind.
  - constructor.
  - rewrite sort_snoc. by apply insert_sorted.
Qed.

Lemma sort_Permutation l : Py.sort key l ≡ₚ l.
Proof.
  induction l as [|x l IH] using rev_ind; [done|].
  by rewrite sort_snoc, insert_Permutation, IH.
Qed.

(** Sorting a sorted list changes nothing. *)
Lemma sort_id l : Py.sorted_by key l → Py.sort key l = l.
Proof.
  induction l as [|x l IH] using rev_ind; [done|].
  intros Hl. unfold Py.sorted_by in Hl.
  apply StronglySorted_app in Hl as (Hx & Hl & _).
  rewrite sort_snoc, IH by done. apply insert_last, Forall_forall.
  intros y Hy. apply Hx; [done|]. by apply list_elem_of_singleton.
Qed.

(** Stability of [insert] into a sorted list: among the elements with a given
    key, the new element comes last. *)
Lemma insert_stable x l k :
  Py.sorted_by key l →
  filter (λ y, key y = k) (Py.insert key x l) = filter (λ y, key y = k) (l ++ [x]).
Proof.
  intros Hl.
  destruct (insert_split_sorted x l Hl) as (l1 & l2 & -> & -> & Hl1 & Hl2).
  rewrite <- (assoc_L (++)), !filter_app. f_equal.
  rewrite filter_cons, (filter_cons _ x []), filter_nil.
  destruct (decide (key x = k)) as [<-|Hk]; [|by rewrite (right_id_L [] (++))].
  assert (filter (λ y, key y = key x) l2 = []) as ->; [|done].
  clear -Hl2. induction Hl2 as [|y l2 Hy _ IH]; [done|].
  rewrite filter_cons_False; [done|].
  intros E. rewrite E in Hy. by apply lt_irrefl in Hy.
Qed.

(** Stability of [sort]: for every key, the elements with that key appear in
    the result in the order they have in the input. *)
Lemma sort_stable l k :
  filter (λ y, key y = k) (Py.sort key l) = filter (λ y, key y = k) l.
Proof.
  induction l as [|x l IH] using rev_ind; [done|].
  rewrite sort_snoc, insert_stable by apply sort_sorted.
  by rewrite !filter_app, IH.
Qed.

(** A list that is sorted by key and lists the elements of each key in the
    order of [l] is the result of [sort]: stability and sortedness determine
    the outcome, whatever the algorithm. *)
Lemma stable_sort_unique l l' :
  Py.sorted_by key l' →
  (∀ k, filter (λ y, key y = k) l' = filter (λ y, key y = k) l) →
  l' = Py.sort key l.
Proof.
  intros Hl' Hst.
  assert (∀ l1 l2, Py.sorted_by key l1 → Py.sorted_by key l2 →
            (∀ k, filter (λ y, key y = k) l1 = filter (λ y, key y = k) l2) →
            l1 = l2) as Huniq.
  { clear. induction l1 as [|x l1 IH]; intros [|y l2] H1 H2 Hf.
    - done.
    - specialize (Hf (key y)). by rewrite filter_cons_True in Hf.
    - specialize (Hf (key x)). by rewrite filter_cons_True in Hf.
    - apply StronglySorted_cons in H1 as [Hx H1].
      apply StronglySorted_cons in H2 as [Hy H2].
      assert (key x = key y) as Hk.
      { apply le_antisym.
        - assert (y ∈ filter (λ z, key z = key y) (x :: l1)) as Hin.
          { rewrite Hf, filter_cons_True by done. left. }
          apply list_elem_of_filter in Hin as [_ [->|Hin]%elem_of_cons].
          + apply le_refl.
          + by eapply Forall_forall in Hx.
        - assert (x ∈ filter (λ z, key z = key x) (y :: l2)) as Hin.
          { rewrite <- Hf, filter_cons_True by done. left. }
          apply list_elem_of_filter in Hin as [_ [->|Hin]%elem_of_cons].
          + apply le_refl.
          + by eapply Forall_forall in Hy. }
      pose proof (Hf (key x)) as Hfx.
      rewrite !filter_cons_True in Hfx by done.
      injection Hfx as -> Hfx. f_equal. apply IH; [done..|].
      intros k. specialize (Hf k). rewrite !filter_cons in Hf.
      destruct (decide (key y = k)); [by injection Hf|done]. }
  apply Huniq; [done|apply sort_sorted|].
  intros k. by rewrite sort_stable.
Qed.

End SortFacts.

(** * Facts about the monad and the loops *)

Lemma for_in_app {A S} (l1 l2 : list A) (body : A → S → M S) (s : S) (w : World) :
  for_in (l1 ++ l2) body s w = bind (for_in l1 body s) (for_in l2 body) w.
Proof.
  revert s w. induction l1 as [|x l1 IH]; intros s w; simpl.
  - done.
  - unfold bind. destruct (body x s w) as [[s'|e] w']; [|done].
    by rewrite IH.
Qed.

Lemma with_products_id (w : World) : with_products (products (self w)) w = w.
Proof. by destruct w as [[ps] fs rf]. Qed.

(** * [add] *)

Lemma add_accepted (w : World) (name market : string) (count : Z) :
  0 ≤ count →
  add name market count w =
    (Return tt,
     with_products
       (Py.sort Product.name (products (self w) ++ [Product.mk name market count])) w).
Proof.
  intros Hc. unfold add. destruct (Z.ltb_spec count 0) as [?|_]; [lia|].
  reflexivity.
Qed.

Lemma add_all_snoc (calls : list call) (c : call) (w : World) :
  add_all (calls ++ [c]) w =
  bind (add_all calls)
       (λ _, let '(name, market, count) := c in add name market count) w.
Proof.
  unfold add_all, for_each. rewrite for_in_app. unfold bind.
  destruct (for_in calls _ tt w) as [[[]|e] w']; [|done].
  simpl. unfold bind. by destruct (let '(_, _, _) := c in _) as [[[]|e] w''].
Qed.

(** C4. For every catalog state, every name and market and every negative
    count, [add] raises [IllegalCount] carrying that count, and the world it
    leaves is the world it started in: the records are unchanged in length
    and contents. *)
Theorem add_negative_count_rejected (w : World) (name market : string) (count : Z) :
  count < 0 →
  ∃ w', add name market count w = (Raise (Py.IllegalCount count "Illegall count"), w') ∧
        w' = w ∧
        products (self w') = products (self w) ∧
        length (products (self w')) = length (products (self w)).
Proof.
  intros Hc. unfold add. destruct (Z.ltb_spec count 0) as [_|?]; [|lia].
  by exists w.
Qed.

Lemma add_negative_count_rejected_witness :
  let w := with_products [Product.mk "Apple" "Aldi" 5] (mkWorld Staff_new ∅) in
  -1 < 0 ∧
  ∃ w', add "Milk" "Aldi" (-1) w = (Raise (Py.IllegalCount (-1) "Illegall count"), w') ∧
        w' = w ∧
        products (self w') = products (self w) ∧
        length (products (self w')) = length (products (self w)).
Proof.
  intros w. split; [lia|].
  apply (add_negative_count_rejected w "Milk" "Aldi" (-1)). lia.
Defined.

(** C3. For every sequence of [add] calls with non-negative counts, started
    in a catalog sorted by name: every prefix of the sequence returns
    normally and leaves the records non-decreasing by name; for every name,
    the records with that name are the initial ones followed by the added
    ones in call order; and each call puts its record behind the records
    whose name is not greater, leaving the order of all others as it was. *)
Theorem add_keeps_sorted_stable (w : World) (calls : list call) :
  Py.sorted_by Product.name (products (self w)) →
  Forall (λ c, 0 ≤ call_count c) calls →
  ∀ k : nat, ∃ wk,
    add_all (take k calls) w = (Return tt, wk) ∧
    files wk = files w ∧
    Py.sorted_by Product.name (products (self wk)) ∧
    products (self wk) ≡ₚ products (self w) ++ (call_record <$> take k calls) ∧
    (∀ n, filter (λ p, Product.name p = n) (products (self wk)) =
          filter (λ p, Product.name p = n)
                 (products (self w) ++ (call_record <$> take k calls))) ∧
    (∀ c, calls !! k = Some c →
          ∃ wk', add_all (take (S k) calls) w = (Return tt, wk') ∧
                 inserted (call_record c) (products (self wk)) (products (self wk'))).
Proof.
  intros Hw Hcalls.
  assert (∀ k : nat, ∃ wk,
    add_all (take k calls) w = (Return tt, wk) ∧
    files wk = files w ∧
    Py.sorted_by Product.name (products (self wk)) ∧
    products (self wk) ≡ₚ products (self w) ++ (call_record <$> take k calls) ∧
    (∀ n, filter (λ p, Product.name p = n) (products (self wk)) =
          filter (λ p, Product.name p = n)
                 (products (self w) ++ (call_record <$> take k calls)))) as Hpre.
  { induction k as [|k (wk & Hrun & Hfiles & Hsorted & Hperm & Hstable)].
    - exists w. rewrite take_0, fmap_nil, (right_id_L [] (++)). by repeat split.
    - destruct (calls !! k) as [c|] eqn:Hk.
      + rewrite (take_S_r _ _ _ Hk), add_all_snoc. unfold bind. rewrite Hrun.
        pose proof (proj1 (Forall_lookup _ _) Hcalls k c Hk) as Hc.
        destruct c as [[name market] count]. simpl in Hc.
        rewrite add_accepted by done. eexists. split; [done|].
        simpl. rewrite fmap_app, (assoc_L (++)). simpl.
        repeat split; [done|apply sort_sorted|..].
        * by rewrite sort_Permutation, Hperm.
        * intros n. rewrite sort_stable, !filter_app, Hstable.
          by rewrite !filter_app.
      + apply lookup_ge_None in Hk.
        rewrite (take_ge calls (S k)) by lia.
        rewrite (take_ge calls k) in Hrun, Hperm, Hstable by lia.
        by exists wk. }
  intros k. destruct (Hpre k) as (wk & Hrun & Hfiles & Hsorted & Hperm & Hstable).
  exists wk. repeat split; [done..|].
  intros c Hk. rewrite (take_S_r _ _ _ Hk), add_all_snoc. unfold bind. rewrite Hrun.
  pose proof (proj1 (Forall_lookup _ _) Hcalls k c Hk) as Hc.
  destruct c as [[name market] count]. simpl in Hc.
  rewrite add_accepted by done. eexists. split; [done|]. simpl.
  rewrite sort_snoc, sort_id by done.
  destruct (insert_split_sorted Product.name (Product.mk name market count)
              (products (self wk)) Hsorted) as (l1 & l2 & E1 & E2 & H1 & H2).
  by exists l1, l2.
Qed.

Lemma add_keeps_sorted_stable_witness :
  let w := with_products [Product.mk "Bread" "Lidl" 3] (mkWorld Staff_new ∅) in
  let calls : list call := [("Apple", "Aldi", 5); ("Bread", "Spar", 4); ("Apple", "Lidl", 0)] in
  Py.sorted_by Product.name (products (self w)) ∧
  Forall (λ c, 0 ≤ call_count c) calls ∧
  ∃ wk,
    add_all (take 1 calls) w = (Return tt, wk) ∧
    files wk = files w ∧
    Py.sorted_by Product.name (products (self wk)) ∧
    products (self wk) ≡ₚ products (self w) ++ (call_record <$> take 1 calls) ∧
    (∀ n, filter (λ p, Product.name p = n) (products (self wk)) =
          filter (λ p, Product.name p = n)
                 (products (self w) ++ (call_record <$> take 1 calls))) ∧
    (∀ c, calls !! 1%nat = Some c →
          ∃ wk', add_all (take 2 calls) w = (Return tt, wk') ∧
                 inserted (call_record c) (products (self wk)) (products (self wk'))).
Proof.
  intros w calls.
  assert (Py.sorted_by Product.name (products (self w))) as Hw.
  { repeat constructor. }
  assert (Forall (λ c, 0 ≤ call_count c) calls) as Hcalls.
  { repeat constructor; simpl; lia. }
  split; [exact Hw|]. split; [exact Hcalls|].
  exact (add_keeps_sorted_stable w calls Hw Hcalls 1).
Defined.

Example add_scenario :
  let w := mkWorld Staff_new ∅ in
  (add "Bread" "Lidl" 3 ;; add "Apple" "Aldi" 5 ;;
   add "apple" "Spar" 1 ;; add "Apple" "Lidl" 2) w
  = (Return tt,
     with_products [Product.mk "Apple" "Aldi" 5; Product.mk "Apple" "Lidl" 2;
                    Product.mk "Bread" "Lidl" 3; Product.mk "apple" "Spar" 1] w).
Proof. reflexivity. Qed.

(** * [select] *)

Lemma select_loop (name : string) (ps acc : list Product) (w : World) :
  for_in ps (λ product result,
    if String.eqb (Product.name product) name
    then ret (result ++ [product])
    else ret result) acc w
  = (Return (acc ++ filter (λ p, Product.name p = name) ps), w).
Proof.
  revert acc. induction ps as [|p ps IH]; intros acc; simpl.
  - by rewrite filter_nil, (right_id_L [] (++)).
  - unfold bind, ret. rewrite filter_cons.
    destruct (String.eqb_spec (Product.name p) name) as [E|E].
    + rewrite IH, decide_True by done. by rewrite <- (assoc_L (++)).
    + by rewrite IH, decide_False.
Qed.

(** C6. For every catalog state and every query name, [select] returns
    normally, its result is exactly the records whose name equals the query,
    in catalog order (a subsequence of the records), empty when no record
    matches, and the world (catalog and files) is left as it was. *)
Theorem select_correct (w : World) (name : string) :
  ∃ result,
    select name w = (Return result, w) ∧
    result = filter (λ p, Product.name p = name) (products (self w)) ∧
    sublist result (products (self w)) ∧
    (∀ p, p ∈ result ↔ p ∈ products (self w) ∧ Product.name p = name) ∧
    ((∀ p, p ∈ products (self w) → Product.name p ≠ name) → result = []).
Proof.
  exists (filter (λ p, Product.name p = name) (products (self w))).
  split_and!.
  - unfold select, bind, get_products. by rewrite select_loop.
  - done.
  - apply sublist_filter.
  - intros p. rewrite list_elem_of_filter. tauto.
  - intros Hno. induction (products (self w)) as [|p ps IH]; [done|].
    rewrite filter_cons_False.
    + apply IH. intros q Hq. apply Hno. by right.
    + apply Hno. by left.
Qed.

Lemma select_correct_witness :
  let w := with_products [Product.mk "Apple" "Aldi" 5; Product.mk "Apple" "Lidl" 2;
                          Product.mk "Bread" "Lidl" 3] (mkWorld Staff_new ∅) in
  (∀ p, p ∈ products (self w) → Product.name p ≠ "Kiwi") ∧
  ∃ result,
    select "Kiwi" w = (Return result, w) ∧
    result = filter (λ p, Product.name p = "Kiwi") (products (self w)) ∧
    sublist result (products (self w)) ∧
    (∀ p, p ∈ result ↔ p ∈ products (self w) ∧ Product.name p = "Kiwi") ∧
    ((∀ p, p ∈ products (self w) → Product.name p ≠ "Kiwi") → result = []).
Proof.
  intros w. split.
  - intros p Hp. simpl in Hp.
    repeat (apply elem_of_cons in Hp as [->|Hp]; [discriminate|]).
    by apply elem_of_nil in Hp.
  - exact (select_correct w "Kiwi").
Defined.

Example select_scenario :
  let w := with_products [Product.mk "Apple" "Aldi" 5; Product.mk "Apple" "Lidl" 2;
                          Product.mk "Bread" "Lidl" 3] (mkWorld Staff_new ∅) in
  select "Apple" w = (Return [Product.mk "Apple" "Aldi" 5; Product.mk "Apple" "Lidl" 2], w) ∧
  select "apple" w = (Return [], w) ∧
  select "Kiwi" w = (Return [], w).
Proof. repeat split. Qed.

(** * [load] *)

(** ** Updating the records *)

Lemma products_with_products (ps : list Product) (w : World) :
  products (self (with_products ps w)) = ps.
Proof. done. Qed.

Lemma with_products_twice (ps ps' : list Product) (w : World) :
  with_products ps' (with_products ps w) = with_products ps' w.
Proof. done. Qed.

Lemma with_products_app_nil (w : World) :
  with_products (products (self w) ++ []) w = w.
Proof. rewrite (right_id_L [] (++)). apply with_products_id. Qed.

(** ** The fields observed along a scan *)

Lemma last_with_tag_snoc (t : string) (cs : list ET.Element) (e : ET.Element) :
  last_with_tag t (cs ++ [e]) =
  if decide (ET.tag e = t) then Some e else last_with_tag t cs.
Proof.
  unfold last_with_tag. rewrite filter_app, (filter_cons _ e []), filter_nil.
  destruct (decide (ET.tag e = t)).
  - apply last_snoc.
  - by rewrite (right_id_L [] (++)).
Qed.


(** ** The inner loop *)

(** One child that [int] does not reject: the variables move on, and a
    record is appended when all three are set. *)
Lemma load_child_step (e : ET.Element) (pre : list ET.Element) (w : World) :
  bad_count e = false →
  load_child e (vars_after pre) w =
    (Return (vars_after (pre ++ [e])),
     match record_after (pre ++ [e]) with
     | Some p => with_products (products (self w) ++ [p]) w
     | None => w
     end).
Proof.
  intros Hbad. unfold bad_count in Hbad.
  unfold load_child, vars_after, record_after, field_text, field_count.
  rewrite !last_with_tag_snoc.
  destruct (String.eqb_spec (ET.tag e) "name") as [En|En].
  { rewrite decide_True by done. rewrite !decide_False by (rewrite En; done).
    unfold bind, ret; simpl.
    destruct (ET.text e) as [n|]; simpl; [|done].
    destruct (last_with_tag "market" pre ≫= ET.text) as [m|]; simpl; [|done].
    by destruct (last_with_tag "count" pre ≫= _) as [c|]. }
  rewrite (decide_False _ _ En).
  destruct (String.eqb_spec (ET.tag e) "market") as [Em|Em].
  { rewrite decide_True by done. rewrite !decide_False by (rewrite Em; done).
    unfold bind, ret; simpl.
    destruct (last_with_tag "name" pre ≫= ET.text) as [n|]; simpl; [|done].
    destruct (ET.text e) as [m|]; simpl; [|done].
    by destruct (last_with_tag "count" pre ≫= _) as [c|]. }
  rewrite (decide_False _ _ Em).
  destruct (String.eqb_spec (ET.tag e) "count") as [Ec|Ec].
  { rewrite decide_True by done. simpl in Hbad.
    unfold bind, ret, lift; simpl.
    destruct (Py.int (ET.text e)) as [err|c]; [done|]. simpl.
    destruct (last_with_tag "name" pre ≫= ET.text) as [n|]; simpl; [|done].
    by destruct (last_with_tag "market" pre ≫= ET.text) as [m|]. }
  rewrite (decide_False _ _ Ec).
  unfold bind, ret; simpl.
  destruct (last_with_tag "name" pre ≫= ET.text) as [n|]; simpl; [|done].
  destruct (last_with_tag "market" pre ≫= ET.text) as [m|]; simpl; [|done].
  by destruct (last_with_tag "count" pre ≫= _) as [c|].
Qed.

(** A [count] child that [int] rejects: the exception escapes and nothing
    is appended. *)
Lemma load_child_bad (e : ET.Element) :
  bad_count e = true →
  ∃ err, ET.tag e = "count" ∧ Py.int (ET.text e) = inl err ∧
         ∀ vars w, load_child e vars w = (Raise err, w).
Proof.
  unfold bad_count. intros [Htag Hint]%andb_prop.
  apply String.eqb_eq in Htag.
  destruct (Py.int (ET.text e)) as [err|c] eqn:E; [|done].
  exists err. split_and!; [done..|]. intros [[n m] c] w.
  unfold load_child. rewrite Htag. simpl.
  unfold bind, lift. by rewrite E.
Qed.

(** The whole scan when [int] rejects no child. *)
Lemma scan_children (cs pre : list ET.Element) (w : World) :
  existsb bad_count cs = false →
  for_in cs load_child (vars_after pre) w =
    (Return (vars_after (pre ++ cs)),
     with_products
       (products (self w) ++
        omap (λ k, record_after (take (S k) (pre ++ cs)))
             (seq (length pre) (length cs))) w).
Proof.
  revert pre w. induction cs as [|e cs IH]; intros pre w Hbad; cbn [for_in].
  - rewrite (right_id_L [] (++) pre). unfold ret. simpl.
    by rewrite with_products_app_nil.
  - simpl in Hbad. apply orb_false_elim in Hbad as [He Hcs].
    unfold bind. rewrite load_child_step by done.
    rewrite (IH (pre ++ [e])) by done.
    rewrite <- (assoc_L (++) pre [e] cs). cbn [app]. f_equal.
    rewrite length_app. cbn [length seq]. rewrite Nat.add_1_r.
    cbn [omap list_omap].
    replace (take (S (length pre)) (pre ++ e :: cs)) with (pre ++ [e]).
    2:{ rewrite (assoc_L (++) pre [e] cs : pre ++ e :: cs = (pre ++ [e]) ++ cs).
        rewrite take_app_length'; [done|].
        rewrite length_app. simpl. lia. }
    destruct (record_after (pre ++ [e])) as [p|]; [|done].
    rewrite with_products_twice, products_with_products.
    by rewrite <- (assoc_L (++)).
Qed.

(** The scan up to the first child that [int] rejects. *)
Lemma scan_children_bad (cs : list ET.Element) :
  existsb bad_count cs = true →
  ∃ (j : nat) (c : ET.Element) (err : Py.exn),
    cs !! j = Some c ∧ existsb bad_count (take j cs) = false ∧
    ET.tag c = "count" ∧ Py.int (ET.text c) = inl err ∧
    ∀ w, for_in cs load_child (None, None, None) w =
      (Raise err,
       with_products
         (products (self w) ++
          omap (λ k, record_after (take (S k) (take j cs))) (seq 0 j)) w).
Proof.
  intros Hbad.
  assert (∃ j c, cs !! j = Some c ∧ existsb bad_count (take j cs) = false ∧
                 bad_count c = true) as (j & c & Hj & Hpre & Hc).
  { induction cs as [|e cs IH]; [done|]. simpl in Hbad.
    destruct (bad_count e) eqn:He.
    - by exists 0%nat, e.
    - destruct (IH Hbad) as (j & c & Hj & Hpre & Hc).
      exists (S j), c. simpl. by rewrite He. }
  destruct (load_child_bad c Hc) as (err & Htag & Hint & Hrun).
  exists j, c, err. split_and!; [done..|]. intros w.
  rewrite <- (take_drop_middle cs j c Hj) at 1.
  rewrite for_in_app. unfold bind.
  change (None, None, None) with (vars_after []).
  rewrite scan_children by done. cbn [app length].
  rewrite length_take_le by (apply lookup_lt_Some in Hj; lia).
  cbn [for_in]. unfold bind. by rewrite Hrun.
Qed.

(** ** The outer loop *)

Lemma load_product_ok (pe : ET.Element) (w : World) :
  existsb bad_count (ET.children pe) = false →
  load_product pe w =
    (Return tt, with_products (products (self w) ++ element_records pe) w).
Proof.
  intros Hbad. unfold load_product, bind.
  change (None, None, None) with (vars_after []).
  by rewrite scan_children.
Qed.

Lemma element_records_cut (j : nat) (pe : ET.Element) :
  (j ≤ length (ET.children pe))%nat →
  element_records (cut_children j pe) =
  omap (λ k, record_after (take (S k) (take j (ET.children pe)))) (seq 0 j).
Proof.
  intros Hj. unfold element_records, cut_children. simpl.
  by rewrite length_take_le.
Qed.

Lemma load_product_bad (pe : ET.Element) :
  existsb bad_count (ET.children pe) = true →
  ∃ (j : nat) (c : ET.Element) (err : Py.exn),
    ET.children pe !! j = Some c ∧
    existsb bad_count (ET.children (cut_children j pe)) = false ∧
    ET.tag c = "count" ∧ Py.int (ET.text c) = inl err ∧
    ∀ w, load_product pe w =
      (Raise err,
       with_products (products (self w) ++ element_records (cut_children j pe)) w).
Proof.
  intros Hbad.
  destruct (scan_children_bad _ Hbad) as (j & c & err & Hj & Hpre & Htag & Hint & Hrun).
  exists j, c, err. split_and!; [done..|]. intros w.
  unfold load_product, bind. rewrite Hrun.
  rewrite element_records_cut; [done|].
  apply lookup_lt_Some in Hj. lia.
Qed.

Lemma load_products_ok (pes : list ET.Element) (w : World) :
  existsb (λ pe, existsb bad_count (ET.children pe)) pes = false →
  for_each pes load_product w =
    (Return tt, with_products (products (self w) ++ (pes ≫= element_records)) w).
Proof.
  revert w. unfold for_each.
  induction pes as [|pe pes IH]; intros w Hbad; cbn [for_in].
  - unfold ret. simpl. by rewrite with_products_app_nil.
  - simpl in Hbad. apply orb_false_elim in Hbad as [Hpe Hpes].
    unfold bind. rewrite load_product_ok by done. rewrite IH by done.
    rewrite with_products_twice, products_with_products, bind_cons.
    by rewrite <- (assoc_L (++)).
Qed.

Lemma cut_document_records (i j : nat) (tree pe : ET.Element) :
  ET.children tree !! i = Some pe →
  parsed_records (cut_document i j tree) =
  (take i (ET.children tree) ≫= element_records) ++ element_records (cut_children j pe).
Proof.
  intros Hi. unfold parsed_records, cut_document. simpl. rewrite Hi. simpl.
  rewrite bind_app, bind_cons. simpl. by rewrite (right_id_L [] (++)).
Qed.

(** Without a rejected count, [load_tree] returns normally and the records
    are those of the document; what the catalog held before is gone. *)
Lemma load_tree_ok (tree : ET.Element) (w : World) :
  has_bad_count tree = false →
  load_tree tree w = (Return tt, with_products (parsed_records tree) w).
Proof.
  intros Hbad. unfold load_tree, bind, set_products.
  rewrite load_products_ok by done. done.
Qed.

(** With a rejected count, [load_tree] raises what [int] raised, and the
    records are those of the document cut in front of the first rejected
    count. *)
Lemma load_tree_bad (tree : ET.Element) :
  has_bad_count tree = true →
  ∃ (i j : nat) (pe c : ET.Element) (err : Py.exn),
    ET.children tree !! i = Some pe ∧ ET.children pe !! j = Some c ∧
    ET.tag c = "count" ∧ Py.int (ET.text c) = inl err ∧
    has_bad_count (cut_document i j tree) = false ∧
    ∀ w, load_tree tree w =
      (Raise err, with_products (parsed_records (cut_document i j tree)) w).
Proof.
  intros Hbad. unfold has_bad_count in Hbad.
  assert (∃ i pe, ET.children tree !! i = Some pe ∧
            existsb (λ pe, existsb bad_count (ET.children pe))
                    (take i (ET.children tree)) = false ∧
            existsb bad_count (ET.children pe) = true) as (i & pe & Hi & Hpre & Hpe).
  { induction (ET.children tree) as [|e pes IH]; [done|]. simpl in Hbad.
    destruct (existsb bad_count (ET.children e)) eqn:He.
    - by exists 0%nat, e.
    - destruct (IH Hbad) as (i & pe & Hi & Hpre & Hpe).
      exists (S i), pe. simpl. by rewrite He. }
  destruct (load_product_bad pe Hpe)
    as (j & c & err & Hj & Hcut & Htag & Hint & Hrun).
  exists i, j, pe, c, err. split_and!; [done..| |].
  - unfold has_bad_count, cut_document. simpl. rewrite Hi. simpl.
    rewrite existsb_app, Hpre. simpl. simpl in Hcut. by rewrite Hcut.
  - intros w. rewrite (cut_document_records i j tree pe Hi).
    unfold load_tree, bind, set_products, for_each.
    rewrite <- (take_drop_middle _ i pe Hi) at 1.
    rewrite for_in_app. unfold bind.
    pose proof (load_products_ok (take i (ET.children tree))
                  (with_products [] w) Hpre) as Hfirst.
    unfold for_each, with_products in Hfirst. simpl in Hfirst.
    rewrite Hfirst. cbn [for_in]. unfold bind.
    rewrite Hrun. done.
Qed.

(** Whatever a parsed document is, [load_tree] ends in the same way and with
    the same records in every world. *)
Lemma load_tree_uniform (tree : ET.Element) :
  ∃ (r : result unit) (ps : list Product),
    ∀ w, load_tree tree w = (r, with_products ps w).
Proof.
  destruct (has_bad_count tree) eqn:Hbad.
  - destruct (load_tree_bad tree Hbad)
      as (i & j & pe & c & err & _ & _ & _ & _ & _ & Hrun).
    by exists (Raise err), (parsed_records (cut_document i j tree)).
  - exists (Return tt), (parsed_records tree). intros w. by apply load_tree_ok.
Qed.

(** ** Reading the file *)

Lemma load_parsed (w : World) (filename : string) (f : ET.file) (tree : ET.Element) :
  files w !! filename = Some f → ET.parsed f = inr tree →
  load filename w = load_tree tree w.
Proof.
  intros Hf Hp. unfold load, bind, read_and_parse. by rewrite Hf, Hp.
Qed.

(** A missing file, or a file the parser rejects, leaves the world as it
    was: the exception is raised before line 83. *)
Lemma load_unread (w : World) (filename : string) :
  (files w !! filename = None →
   load filename w = (Raise Py.FileNotFoundError, w)) ∧
  (∀ f e, files w !! filename = Some f → ET.parsed f = inl e →
          load filename w = (Raise e, w)).
Proof.
  split.
  - intros Hf. unfold load, bind, read_and_parse. by rewrite Hf.
  - intros f e Hf Hp. unfold load, bind, read_and_parse. by rewrite Hf, Hp.
Qed.

(** ** A rejected count *)


(** A count in full-width digits is a count like any other: the scan goes
    on to the next product, and stops at the count that [int] rejects. *)
Example load_full_width_count :
  let tree :=
    node "products"
      [node "product" [leaf "name" "Milk"; leaf "market" "Aldi"; leaf "count" "１２"];
       node "product" [leaf "name" "Tea"; leaf "market" "Spar"; leaf "count" "two"]] in
  let w := mkWorld Staff_new {[ "in.xml" := document tree ]} in
  load "in.xml" w = (Raise Py.ValueError, with_products [Product.mk "Milk" "Aldi" 12] w).
Proof. vm_compute. reflexivity. Qed.



(** The same failure with an empty count element: [int(None)] raises
    [TypeError]. *)
Example load_empty_count :
  let tree := node "products" [node "product" [leaf "name" "Tea"; node "count" []]] in
  let w := with_products [Product.mk "Apple" "Aldi" 5] (mkWorld Staff_new ∅) in
  load_tree tree w = (Raise Py.TypeError, with_products [] w).
Proof. reflexivity. Qed.

(** ** One record per product element *)

Lemma omap_all_None {A B} (g : A → option B) (l : list A) :
  Forall (λ x, g x = None) l → omap g l = [].
Proof. induction 1 as [|x l Hx _ IH]; simpl; [done|]. by rewrite Hx. Qed.

Lemma element_records_single (pe : ET.Element) :
  single_completion pe = true →
  element_records pe = option_list (record_after (ET.children pe)).
Proof.
  unfold single_completion, element_records. cbv zeta.
  destruct (ET.children pe) as [|c cs _] using rev_ind; [done|].
  rewrite length_app. cbn [length]. rewrite Nat.add_1_r. cbn [pred].
  intros Hsingle. rewrite seq_S, omap_app. cbn [Nat.add omap list_omap].
  rewrite omap_all_None.
  - rewrite (take_ge (cs ++ [c])) by (rewrite length_app; simpl; lia).
    by destruct (record_after (cs ++ [c])).
  - apply Forall_forall. intros k Hk. apply list_elem_of_In in Hk.
    apply (proj1 (forallb_forall _ _) Hsingle k) in Hk.
    by destruct (record_after (take (S k) (cs ++ [c]))).
Qed.

Lemma last_with_tag_lacks (t : string) (pe : ET.Element) :
  lacks t pe → last_with_tag t (ET.children pe) = None.
Proof.
  unfold lacks, last_with_tag. intros Hlacks.
  induction (ET.children pe) as [|c cs IH]; [done|].
  rewrite filter_cons_False.
  - apply IH. intros c' Hc'. apply Hlacks. by right.
  - apply Hlacks. by left.
Qed.

Lemma record_after_lacks (t : string) (pe : ET.Element) :
  t ∈ ["name"; "market"; "count"] → lacks t pe →
  record_after (ET.children pe) = None.
Proof.
  intros Ht Hlacks. apply last_with_tag_lacks in Hlacks.
  unfold record_after, field_text, field_count.
  repeat (apply elem_of_cons in Ht as [->|Ht]).
  - by rewrite Hlacks.
  - rewrite Hlacks. simpl. by destruct (last_with_tag "name" _ ≫= ET.text).
  - rewrite Hlacks. simpl.
    destruct (last_with_tag "name" _ ≫= ET.text); [|done]. simpl.
    by destruct (last_with_tag "market" _ ≫= ET.text).
  - by apply elem_of_nil in Ht.
Qed.

(** C5, as stated, fails.  In the document below [name], [market] and
    [count] appear in both product elements.  The first, whose name element
    is empty, yields no record; the second, which has a further child after
    the three, yields two records. *)
Lemma load_not_one_record_per_product :
  let empty_name :=
    node "product" [node "name" []; leaf "market" "Spar"; leaf "count" "1"] in
  let extra_child :=
    node "product" [leaf "name" "Milk"; leaf "market" "Aldi"; leaf "count" "2";
                    leaf "note" "fresh"] in
  let tree := node "products" [empty_name; extra_child] in
  let w := mkWorld Staff_new {[ "in.xml" := document tree ]} in
  ET.parsed (document tree) = inr tree ∧
  load "in.xml" w = (Return tt, with_products [Product.mk "Milk" "Aldi" 2;
                                             Product.mk "Milk" "Aldi" 2] w) ∧
  element_records empty_name = [] ∧
  element_records extra_child = [Product.mk "Milk" "Aldi" 2; Product.mk "Milk" "Aldi" 2].
Proof. intros empty_name extra_child tree w. split_and!; vm_compute; reflexivity. Qed.

(** C5, amended.  For every input document in which [int] accepts every
    count text and no product element has a child after the one that
    completes the three fields, [load] returns normally and the records are,
    in document order, exactly one for each product element in which [name],
    [market] and [count] have all been observed with a value (an element with
    empty text leaves its field unobserved), made of the values observed
    last.  A product element that lacks one of the three children yields no
    record and no error, and the other product elements are loaded all the
    same. *)
Theorem load_one_record_per_complete_product
    (w : World) (filename : string) (f : ET.file) (tree : ET.Element) :
  files w !! filename = Some f → ET.parsed f = inr tree →
  has_bad_count tree = false →
  forallb single_completion (ET.children tree) = true →
  load filename w =
    (Return tt,
     with_products
       (ET.children tree ≫= λ pe, option_list (record_after (ET.children pe))) w) ∧
  (∀ pe t, t ∈ ["name"; "market"; "count"] → lacks t pe →
           option_list (record_after (ET.children pe)) = []).
Proof.
  intros Hf Hp Hbad Hsingle. split.
  - rewrite (load_parsed w filename f tree Hf Hp), load_tree_ok by done.
    unfold parsed_records. do 2 f_equal.
    induction (ET.children tree) as [|pe pes IH]; [done|].
    simpl in Hsingle. apply andb_prop in Hsingle as [Hpe Hpes].
    rewrite !bind_cons, IH by done. by rewrite element_records_single.
  - intros pe t Ht Hlacks. by rewrite (record_after_lacks t pe).
Qed.

Lemma load_one_record_per_complete_product_witness :
  let tree :=
    node "products"
      [node "product" [leaf "name" "Milk"; leaf "market" "Aldi"; leaf "count" "2"];
       node "product" [leaf "name" "Tea"; leaf "count" "7"];
       node "product" [leaf "count" "4"; leaf "market" "Spar"; leaf "name" "Rice"]] in
  let w := with_products [Product.mk "Apple" "Aldi" 5]
             (mkWorld Staff_new {[ "in.xml" := document tree ]}) in
  files w !! "in.xml" = Some (document tree) ∧
  ET.parsed (document tree) = inr tree ∧
  has_bad_count tree = false ∧
  forallb single_completion (ET.children tree) = true ∧
  (load "in.xml" w =
    (Return tt,
     with_products
       (ET.children tree ≫= λ pe, option_list (record_after (ET.children pe))) w) ∧
   (∀ pe t, t ∈ ["name"; "market"; "count"] → lacks t pe →
            option_list (record_after (ET.children pe)) = [])).
Proof.
  intros tree w.
  assert (files w !! "in.xml" = Some (document tree)) as Hf by reflexivity.
  assert (ET.parsed (document tree) = inr tree) as Hp by reflexivity.
  assert (has_bad_count tree = false) as Hbad by reflexivity.
  assert (forallb single_completion (ET.children tree) = true) as Hsingle
    by reflexivity.
  split; [exact Hf|]. split; [exact Hp|]. split; [exact Hbad|].
  split; [exact Hsingle|].
  exact (load_one_record_per_complete_product w "in.xml" (document tree) tree
           Hf Hp Hbad Hsingle).
Defined.

Example load_partial_fields :
  let tree :=
    node "products"
      [node "product" [leaf "name" "Milk"; leaf "market" "Aldi"; leaf "count" "2"];
       node "product" [leaf "name" "Tea"; leaf "count" "7"];
       node "product" [leaf "count" "4"; leaf "market" "Spar"; leaf "name" "Rice"]] in
  let w := with_products [Product.mk "Apple" "Aldi" 5] (mkWorld Staff_new ∅) in
  load_tree tree w =
    (Return tt, with_products [Product.mk "Milk" "Aldi" 2; Product.mk "Rice" "Spar" 4] w).
Proof. reflexivity. Qed.

(** ** Document order *)

#[local] Arguments Py.int : simpl never.
#[local] Arguments Py.str : simpl never.

Lemma element_records_product_xml (p : Product) : element_records (product_xml p) = [p].
Proof.
  destruct p as [n m c].
  unfold element_records, product_xml, node, leaf. cbn [ET.children length seq take].
  unfold record_after, field_text, field_count, last_with_tag.
  cbn [omap list_omap]. simpl. by rewrite int_str.
Qed.

Lemma parsed_records_products_xml (ps : list Product) :
  parsed_records (products_xml ps) = ps.
Proof.
  unfold parsed_records, products_xml, node. simpl.
  induction ps as [|p ps IH]; [done|].
  rewrite fmap_cons, bind_cons, element_records_product_xml, IH. done.
Qed.


(** C7. For every input document that [load] reads without raising, the
    records afterwards are the records of the document in document order and
    the files are untouched; the replacement is wholesale: for every parsed
    document, the outcome and the records after [load] are the same whatever
    the catalog held before.  For a document of the grammar listing the
    records [ps], the records are [ps] in their order in the document.  No
    sort is applied: there is a document after whose load the records are
    not sorted by name, in contrast to [add]. *)
Theorem load_installs_document_order :
  (∀ (w w' : World) (filename : string) (f : ET.file) (tree : ET.Element),
     files w !! filename = Some f → ET.parsed f = inr tree →
     load filename w = (Return tt, w') →
     w' = with_products (parsed_records tree) w) ∧
  (∀ (w : World) (before : list Product) (filename : string)
     (f : ET.file) (tree : ET.Element),
     files w !! filename = Some f → ET.parsed f = inr tree →
     fst (load filename (with_products before w)) = fst (load filename w) ∧
     products (self (snd (load filename (with_products before w))))
     = products (self (snd (load filename w)))) ∧
  (∀ ps, parsed_records (products_xml ps) = ps) ∧
  (∃ (w w' : World) (filename : string),
     load filename w = (Return tt, w') ∧
     products (self w') = [Product.mk "Bread" "Lidl" 3; Product.mk "Apple" "Aldi" 5] ∧
     ¬ Py.sorted_by Product.name (products (self w')) ∧
     Py.sort Product.name (products (self w')) ≠ products (self w')).
Proof.
  split_and!.
  - intros w w' filename f tree Hf Hp Hload.
    rewrite (load_parsed w filename f tree Hf Hp) in Hload.
    destruct (has_bad_count tree) eqn:Hbad.
    + destruct (load_tree_bad tree Hbad)
        as (i & j & pe & c & err & _ & _ & _ & _ & _ & Hrun).
      rewrite Hrun in Hload. discriminate Hload.
    + rewrite load_tree_ok in Hload by done. by injection Hload as <-.
  - intros w before filename f tree Hf Hp.
    rewrite (load_parsed w filename f tree Hf Hp).
    rewrite (load_parsed (with_products before w) filename f tree Hf Hp).
    destruct (load_tree_uniform tree) as (r & ps & Hrun).
    by rewrite !Hrun.
  - apply parsed_records_products_xml.
  - pose (ps := [Product.mk "Bread" "Lidl" 3; Product.mk "Apple" "Aldi" 5]).
    pose (w := mkWorld Staff_new {[ "in.xml" := document (products_xml ps) ]}).
    exists w, (with_products ps w), "in.xml". split_and!.
    + vm_compute. reflexivity.
    + done.
    + intros Hsorted. simpl in Hsorted.
      apply StronglySorted_cons in Hsorted as [Hle _].
      apply Forall_cons in Hle as [Hle _]. discriminate Hle.
    + discriminate.
Qed.

Lemma load_installs_document_order_witness :
  let ps := [Product.mk "Bread" "Lidl" 3; Product.mk "Apple" "Aldi" 5] in
  let w := with_products [Product.mk "Kiwi" "Spar" 1]
             (mkWorld Staff_new {[ "in.xml" := document (products_xml ps) ]}) in
  files w !! "in.xml" = Some (document (products_xml ps)) ∧
  ET.parsed (document (products_xml ps)) = inr (products_xml ps) ∧
  load "in.xml" w = (Return tt, with_products ps w) ∧
  with_products ps w = with_products (parsed_records (products_xml ps)) w.
Proof.
  intros ps w.
  assert (files w !! "in.xml" = Some (document (products_xml ps))) as Hf
    by reflexivity.
  assert (ET.parsed (document (products_xml ps)) = inr (products_xml ps)) as Hp
    by reflexivity.
  assert (load "in.xml" w = (Return tt, with_products ps w)) as Hload
    by (vm_compute; reflexivity).
  split; [exact Hf|]. split; [exact Hp|]. split; [exact Hload|].
  exact (proj1 load_installs_document_order w (with_products ps w) "in.xml"
           (document (products_xml ps)) (products_xml ps) Hf Hp Hload).
Defined.

(** ** Negative counts and repeated records *)

(** C9. [load] does not check [count >= 0].  Whatever the catalog holds,
    loading the document with the one product Milk, Aldi and the count text
    [-5] returns normally and installs, as the whole catalog, the record
    with the count -5, which is negative; [add] rejects that very record in
    every state. *)
Theorem load_accepts_negative_count
    (w : World) (filename : string) (f : ET.file) :
  files w !! filename = Some f →
  ET.parsed f = inr (node "products"
                       [node "product" [leaf "name" "Milk"; leaf "market" "Aldi";
                                        leaf "count" "-5"]]) →
  ∃ p : Product,
    load filename w = (Return tt, with_products [p] w) ∧
    p = Product.mk "Milk" "Aldi" (-5) ∧ Product.count p < 0 ∧
    ∀ w0, add (Product.name p) (Product.market p) (Product.count p) w0
          = (Raise (Py.IllegalCount (-5) "Illegall count"), w0).
Proof.
  intros Hf Hp. exists (Product.mk "Milk" "Aldi" (-5)).
  rewrite (load_parsed w filename f _ Hf Hp).
  rewrite load_tree_ok by reflexivity.
  split_and!; done.
Qed.

Lemma load_accepts_negative_count_witness :
  let tree := node "products"
                [node "product" [leaf "name" "Milk"; leaf "market" "Aldi";
                                 leaf "count" "-5"]] in
  let w := with_products [Product.mk "Apple" "Aldi" 5; Product.mk "Tea" "Spar" 1]
             (mkWorld Staff_new {[ "in.xml" := document tree ]}) in
  files w !! "in.xml" = Some (document tree) ∧
  ET.parsed (document tree) = inr tree ∧
  ∃ p : Product,
    load "in.xml" w = (Return tt, with_products [p] w) ∧
    p = Product.mk "Milk" "Aldi" (-5) ∧ Product.count p < 0 ∧
    ∀ w0, add (Product.name p) (Product.market p) (Product.count p) w0
          = (Raise (Py.IllegalCount (-5) "Illegall count"), w0).
Proof.
  intros tree w.
  assert (files w !! "in.xml" = Some (document tree)) as Hf by reflexivity.
  assert (ET.parsed (document tree) = inr tree) as Hp by reflexivity.
  split; [exact Hf|]. split; [exact Hp|].
  exact (load_accepts_negative_count w "in.xml" (document tree) Hf Hp).
Defined.

(** C10. The test that all three fields are set runs after every child.
    Whatever the catalog holds, loading the document whose single product
    element has the children [name], [market], [count] and then [note]
    returns normally and leaves a catalog of two records, both the record of
    that one product element: the record is appended after [count] and once
    more after [note]. *)
Theorem load_extra_child_repeats_record
    (w : World) (filename : string) (f : ET.file) (tree pe : ET.Element) :
  files w !! filename = Some f → ET.parsed f = inr tree →
  tree = node "products" [pe] →
  pe = node "product" [leaf "name" "Milk"; leaf "market" "Aldi"; leaf "count" "5";
                       leaf "note" "fresh"] →
  ∃ p : Product,
    load filename w = (Return tt, with_products [p; p] w) ∧
    p = Product.mk "Milk" "Aldi" 5 ∧
    length (ET.children tree) = 1%nat ∧
    (length (products (self (load filename w).2)) = 2)%nat.
Proof.
  intros Hf Hp -> ->. exists (Product.mk "Milk" "Aldi" 5).
  rewrite (load_parsed w filename f _ Hf Hp).
  rewrite load_tree_ok by reflexivity.
  split_and!; done.
Qed.

Lemma load_extra_child_repeats_record_witness :
  let pe := node "product" [leaf "name" "Milk"; leaf "market" "Aldi"; leaf "count" "5";
                            leaf "note" "fresh"] in
  let tree := node "products" [pe] in
  let w := with_products [Product.mk "Apple" "Aldi" 5]
             (mkWorld Staff_new {[ "in.xml" := document tree ]}) in
  files w !! "in.xml" = Some (document tree) ∧
  ET.parsed (document tree) = inr tree ∧
  ∃ p : Product,
    load "in.xml" w = (Return tt, with_products [p; p] w) ∧
    p = Product.mk "Milk" "Aldi" 5 ∧
    length (ET.children tree) = 1%nat ∧
    (length (products (self (load "in.xml" w).2)) = 2)%nat.
Proof.
  intros pe tree w.
  assert (files w !! "in.xml" = Some (document tree)) as Hf by reflexivity.
  assert (ET.parsed (document tree) = inr tree) as Hp by reflexivity.
  split; [exact Hf|]. split; [exact Hp|].
  exact (load_extra_child_repeats_record w "in.xml" (document tree) tree pe
           Hf Hp eq_refl eq_refl).
Defined.

(** * [save] *)

(** The tree [save] builds is the document of the grammar for the records,
    in their order. *)
Lemma save_tree_products_xml (ps : list Product) : save_tree ps = products_xml ps.
Proof.
  unfold save_tree, products_xml, node.
  change (ET.new "products") with (ET.mkElement "products" None (product_xml <$> [])).
  change ps with ([] ++ ps) at 2.
  generalize (@nil Product) as saved.
  induction ps as [|p ps IH]; intros saved; simpl.
  - by rewrite (right_id_L [] (++)).
  - rewrite (assoc_L (++) saved [p] ps : saved ++ p :: ps = (saved ++ [p]) ++ ps).
    rewrite <- IH. by rewrite fmap_app.
Qed.




Lemma save_run (w : World) (filename : string) :
  save filename w =
    match faults w !! filename with
    | Some (Refused e) => (Raise e, w)
    | Some (Broken e remains) => (Raise e, with_file filename remains w)
    | Some (Sealed e) =>
        (Return tt,
         with_file filename
           {| ET.bytes := ET.write (products_xml (products (self w))) "utf8" true;
              ET.parsed := inl e |} w)
    | None =>
        (Return tt,
         with_file filename
           (ET.written (products_xml (products (self w))) "utf8" true) w)
    end.
Proof.
  unfold save, bind, get_products, write_tree.
  by rewrite save_tree_products_xml.
Qed.



Example save_scenario :
  let w := with_products [Product.mk "Apple" "Aldi" 5; Product.mk "Bread" "A&B" 3]
             (mkWorld Staff_new ∅) in
  ET.bytes <$> (files (snd (save "x.xml" w)) !! "x.xml")
  = Some ("<?xml version='1.0' encoding='utf8'?>" +:+ String "010"
          ("<products><product><name>Apple</name><market>Aldi</market>" +:+
           "<count>5</count></product><product><name>Bread</name>" +:+
           "<market>A&amp;B</market><count>3</count></product></products>")).
Proof. vm_compute. reflexivity. Qed.

(** * [save] followed by [load] *)











(** Text with a carriage return changes on the way, and a control character
    makes the written file unreadable: the catalog then stays as it was. *)
Example save_load_other_losses :
  let w1 := with_products [Product.mk ("A" +:+ String "013" "B") "Aldi" 5] (mkWorld Staff_new ∅) in
  let w2 := with_products [Product.mk ("A" +:+ String "001" "B") "Aldi" 5] (mkWorld Staff_new ∅) in
  fst (load "x.xml" (mkWorld Staff_new (files (snd (save "x.xml" w1)))))  = Return tt ∧
  products (self (snd (load "x.xml" (mkWorld Staff_new (files (snd (save "x.xml" w1)))))))
    = [Product.mk ("A" +:+ String "010" "B") "Aldi" 5] ∧
  load "x.xml" (mkWorld Staff_new (files (snd (save "x.xml" w2))))
    = (Raise Py.ParseError, mkWorld Staff_new (files (snd (save "x.xml" w2)))).
Proof. split_and!; vm_compute; reflexivity. Qed.

(** * Further properties of [add] and [select] *)

Lemma le_lt_trans a b c : Py.le a b → Py.lt b c → Py.lt a c.
Proof.
  intros Hab Hbc. destruct (String.ltb a c) eqn:E; [done|].
  exfalso. apply (lt_not_le b c Hbc). by apply (le_trans c a b).
Qed.

Lemma lt_trichotomy a b : Py.lt a b ∨ a = b ∨ Py.lt b a.
Proof.
  unfold Py.lt, String.ltb. rewrite (String.compare_antisym a b).
  destruct (String.compare b a) eqn:E; simpl; auto.
  apply String.compare_eq_iff in E. auto.
Qed.

Section MoreSortFacts.
Context {A : Type} (key : A → string).

(** Sorting a list whose front part is already sorted is sorting the list. *)
Lemma sort_sort_app (l l' : list A) :
  Py.sort key (Py.sort key l ++ l') = Py.sort key (l ++ l').
Proof.
  symmetry. apply stable_sort_unique; [apply sort_sorted|].
  intros k. by rewrite sort_stable, !filter_app, sort_stable.
Qed.

(** Two elements with different keys can be appended in either order. *)
Lemma sort_swap_last (l : list A) (x y : A) :
  key x ≠ key y → Py.sort key (l ++ [x; y]) = Py.sort key (l ++ [y; x]).
Proof.
  intros Hxy. apply stable_sort_unique; [apply sort_sorted|].
  intros k. rewrite sort_stable, !filter_app. f_equal.
  rewrite !filter_cons, !filter_nil.
  destruct (decide (key x = k)), (decide (key y = k)); congruence.
Qed.

(** In a sorted list the elements with a given key form one block. *)
Lemma sorted_key_block (l : list A) (k : string) :
  Py.sorted_by key l →
  ∃ l1 l2, l = l1 ++ filter (λ y, key y = k) l ++ l2 ∧
           Forall (λ y, Py.lt (key y) k) l1 ∧
           Forall (λ y, Py.lt k (key y)) l2.
Proof.
  induction l as [|x l IH]; intros Hl.
  { by exists [], []. }
  apply StronglySorted_cons in Hl as [Hx Hl].
  destruct (IH Hl) as (l1 & l2 & El & Hl1 & Hl2).
  assert (∀ y, y ∈ l1 → Py.le (key x) (key y)) as Hx1.
  { intros y Hy. eapply Forall_forall in Hx; [exact Hx|].
    rewrite El. apply elem_of_app. by left. }
  rewrite filter_cons. destruct (decide (key x = k)) as [Ek|Ek].
  - destruct l1 as [|y l1].
    + exists [], l2. simpl in *. by rewrite <- El.
    + exfalso. apply Forall_cons in Hl1 as [Hy _].
      apply (lt_not_le _ _ Hy). rewrite <- Ek. apply Hx1. by left.
  - destruct (lt_trichotomy (key x) k) as [Hlt|[?|Hgt]]; [|done|].
    + exists (x :: l1), l2. simpl. rewrite <- El. by repeat constructor.
    + assert (Forall (λ y, Py.lt k (key y)) l) as Hall.
      { eapply Forall_impl; [exact Hx|]. intros y Hy. by eapply lt_le_trans. }
      assert (filter (λ y, key y = k) l = []) as Hnone.
      { clear -Hall. induction Hall as [|y l Hy _ IH]; [done|].
        rewrite filter_cons_False; [done|].
        intros E. rewrite E in Hy. by apply lt_irrefl in Hy. }
      exists [], (x :: l). rewrite Hnone. simpl. by repeat constructor.
Qed.

End MoreSortFacts.

(** X1. An accepted [add] leaves the records sorted by name whatever their
    order was before (for instance after a [load] that installed an unsorted
    document): the records afterwards are sorted, are a rearrangement of the
    old records and the new one, and the files are untouched. *)
Theorem add_accepted_sorts_any_catalog
    (w : World) (name market : string) (count : Z) :
  0 ≤ count →
  ∃ w', add name market count w = (Return tt, w') ∧
        files w' = files w ∧
        Py.sorted_by Product.name (products (self w')) ∧
        products (self w') ≡ₚ Product.mk name market count :: products (self w) ∧
        length (products (self w')) = S (length (products (self w))).
Proof.
  intros Hc. rewrite add_accepted by done. eexists. split; [done|].
  simpl. split_and!; [done|apply sort_sorted|..].
  - rewrite sort_Permutation. symmetry. apply Permutation_cons_append.
  - rewrite (Permutation_length (sort_Permutation _ _)), length_app. simpl. lia.
Qed.

Lemma add_accepted_sorts_any_catalog_witness :
  let w := with_products [Product.mk "Tea" "Spar" 1; Product.mk "Bread" "Lidl" 3]
             (mkWorld Staff_new ∅) in
  0 ≤ 0 ∧
  ∃ w', add "Milk" "Aldi" 0 w = (Return tt, w') ∧
        files w' = files w ∧
        Py.sorted_by Product.name (products (self w')) ∧
        products (self w') ≡ₚ Product.mk "Milk" "Aldi" 0 :: products (self w) ∧
        length (products (self w')) = S (length (products (self w))).
Proof.
  intros w. split; [lia|].
  apply (add_accepted_sorts_any_catalog w "Milk" "Aldi" 0). lia.
Defined.

(** X2. Two accepted [add] calls whose names differ commute: in either order
    they leave the same world, from any catalog. *)
Theorem add_commutes_for_different_names
    (w : World) (name1 market1 name2 market2 : string) (count1 count2 : Z) :
  0 ≤ count1 → 0 ≤ count2 → name1 ≠ name2 →
  (add name1 market1 count1 ;; add name2 market2 count2) w
  = (add name2 market2 count2 ;; add name1 market1 count1) w.
Proof.
  intros H1 H2 Hne. unfold bind.
  rewrite (add_accepted w name1), (add_accepted w name2) by done. cbv iota beta.
  rewrite !add_accepted by done.
  rewrite !with_products_twice, !products_with_products.
  rewrite !sort_sort_app, <- !(assoc_L (++)). cbn [app].
  by rewrite (sort_swap_last Product.name (products (self w))
                (Product.mk name1 market1 count1) (Product.mk name2 market2 count2)).
Qed.

Lemma add_commutes_for_different_names_witness :
  let w := with_products [Product.mk "Tea" "Spar" 1; Product.mk "Bread" "Lidl" 3]
             (mkWorld Staff_new ∅) in
  0 ≤ 2 ∧ 0 ≤ 7 ∧ "Milk" ≠ "Apple" ∧
  (add "Milk" "Aldi" 2 ;; add "Apple" "Lidl" 7) w
  = (add "Apple" "Lidl" 7 ;; add "Milk" "Aldi" 2) w.
Proof.
  intros w.
  assert (0 ≤ 2) as H1 by lia. assert (0 ≤ 7) as H2 by lia.
  assert ("Milk" ≠ "Apple") as Hne by discriminate.
  split; [exact H1|]. split; [exact H2|]. split; [exact Hne|].
  exact (add_commutes_for_different_names w "Milk" "Aldi" "Apple" "Lidl" 2 7 H1 H2 Hne).
Defined.

(** With equal names the order of the calls shows in the result. *)
Example add_equal_names_do_not_commute :
  let w := mkWorld Staff_new ∅ in
  (add "Milk" "Aldi" 2 ;; add "Milk" "Lidl" 7) w
  ≠ (add "Milk" "Lidl" 7 ;; add "Milk" "Aldi" 2) w.
Proof. discriminate. Qed.

Lemma select_run (w : World) (query : string) :
  select query w
  = (Return (filter (λ p, Product.name p = query) (products (self w))), w).
Proof. unfold select, bind, get_products. by rewrite select_loop. Qed.

(** X3. After an accepted [add(name, market, count)], [select(name)] returns
    what it returned before followed by the new record, and [select] of any
    other name returns what it returned before. *)
Theorem select_after_add
    (w : World) (name market query : string) (count : Z) :
  0 ≤ count →
  ∃ w' before after,
    add name market count w = (Return tt, w') ∧
    select query w = (Return before, w) ∧
    select query w' = (Return after, w') ∧
    after = before ++ (if decide (name = query)
                       then [Product.mk name market count] else []).
Proof.
  intros Hc. rewrite add_accepted by done.
  eexists _, _, _. split_and!; [done|apply select_run..|].
  by rewrite products_with_products, sort_stable, filter_app.
Qed.

Lemma select_after_add_witness :
  let w := with_products [Product.mk "Milk" "Aldi" 2; Product.mk "Tea" "Spar" 1]
             (mkWorld Staff_new ∅) in
  0 ≤ 4 ∧
  ∃ w' before after,
    add "Milk" "Lidl" 4 w = (Return tt, w') ∧
    select "Milk" w = (Return before, w) ∧
    select "Milk" w' = (Return after, w') ∧
    after = before ++ (if decide ("Milk" = "Milk")
                       then [Product.mk "Milk" "Lidl" 4] else []).
Proof.
  intros w. split; [lia|].
  apply (select_after_add w "Milk" "Lidl" "Milk" 4). lia.
Defined.

(** X4. In a catalog sorted by name, the records [select] returns form one
    contiguous block of the catalog: the records before it have smaller
    names, the records after it greater names. *)
Theorem select_block_of_sorted_catalog (w : World) (query : string) :
  Py.sorted_by Product.name (products (self w)) →
  ∃ result l1 l2,
    select query w = (Return result, w) ∧
    products (self w) = l1 ++ result ++ l2 ∧
    Forall (λ p, Py.lt (Product.name p) query) l1 ∧
    Forall (λ p, Py.lt query (Product.name p)) l2.
Proof.
  intros Hsorted.
  destruct (sorted_key_block Product.name _ query Hsorted) as (l1 & l2 & E & H1 & H2).
  eexists _, l1, l2. split; [apply select_run|]. done.
Qed.

Lemma select_block_of_sorted_catalog_witness :
  let w := with_products [Product.mk "Apple" "Aldi" 5; Product.mk "Milk" "Aldi" 2;
                          Product.mk "Milk" "Lidl" 4; Product.mk "Tea" "Spar" 1]
             (mkWorld Staff_new ∅) in
  Py.sorted_by Product.name (products (self w)) ∧
  ∃ result l1 l2,
    select "Milk" w = (Return result, w) ∧
    products (self w) = l1 ++ result ++ l2 ∧
    Forall (λ p, Py.lt (Product.name p) "Milk") l1 ∧
    Forall (λ p, Py.lt "Milk" (Product.name p)) l2.
Proof.
  intros w.
  assert (Py.sorted_by Product.name (products (self w))) as Hsorted.
  { repeat constructor. }
  split; [exact Hsorted|].
  exact (select_block_of_sorted_catalog w "Milk" Hsorted).
Defined.

(** * Further properties of [load] *)

(** X5. [load] of a missing file raises [FileNotFoundError], and [load] of a
    file that cannot be read or parsed raises the exception of the reader;
    both leave the catalog and the files exactly as they were: the failure
    comes before line 83. *)
Theorem load_unreadable_keeps_world (w : World) (filename : string) :
  (files w !! filename = None →
   load filename w = (Raise Py.FileNotFoundError, w)) ∧
  (∀ f e, files w !! filename = Some f → ET.parsed f = inl e →
          load filename w = (Raise e, w)).
Proof.
  split.
  - intros Hf. unfold load, bind, read_and_parse. by rewrite Hf.
  - intros f e Hf Hp. unfold load, bind, read_and_parse. by rewrite Hf, Hp.
Qed.

Lemma load_unreadable_keeps_world_witness :
  let broken := ET.mkFile "<products><product>" (inl Py.ParseError) in
  let w := with_products [Product.mk "Apple" "Aldi" 5]
             (mkWorld Staff_new {[ "broken.xml" := broken ]}) in
  (files w !! "none.xml" = None ∧
   load "none.xml" w = (Raise Py.FileNotFoundError, w)) ∧
  (files w !! "broken.xml" = Some broken ∧ ET.parsed broken = inl Py.ParseError ∧
   load "broken.xml" w = (Raise Py.ParseError, w)).
Proof.
  intros broken w. split.
  - assert (files w !! "none.xml" = None) as Hf by reflexivity.
    split; [exact Hf|].
    exact (proj1 (load_unreadable_keeps_world w "none.xml") Hf).
  - assert (files w !! "broken.xml" = Some broken) as Hf by reflexivity.
    assert (ET.parsed broken = inl Py.ParseError) as Hp by reflexivity.
    split; [exact Hf|]. split; [exact Hp|].
    exact (proj2 (load_unreadable_keeps_world w "broken.xml") broken Py.ParseError Hf Hp).
Defined.

Lemma load_keeps_files (w : World) (filename : string) :
  files (snd (load filename w)) = files w.
Proof.
  unfold load, bind, read_and_parse.
  destruct (files w !! filename) as [f|]; [|done].
  destruct (ET.parsed f) as [e|tree]; [done|]. simpl.
  destruct (load_tree_uniform tree) as (r & ps & Hrun).
  by rewrite Hrun.
Qed.

(** X6. [load] never changes a file, and loading a parsed file a second
    time changes nothing: the second call ends as the first did and leaves
    the world the first call left. *)
Theorem load_twice
    (w : World) (filename : string) (f : ET.file) (tree : ET.Element) :
  files w !! filename = Some f → ET.parsed f = inr tree →
  files (snd (load filename w)) = files w ∧
  load filename (snd (load filename w)) = load filename w.
Proof.
  intros Hf Hp. split; [apply load_keeps_files|].
  rewrite (load_parsed w filename f tree Hf Hp).
  destruct (load_tree_uniform tree) as (r & ps & Hrun).
  rewrite Hrun. simpl.
  rewrite (load_parsed (with_products ps w) filename f tree Hf Hp).
  by rewrite Hrun.
Qed.

Lemma load_twice_witness :
  let tree :=
    node "products"
      [node "product" [leaf "name" "Milk"; leaf "market" "Aldi"; leaf "count" "2"];
       node "product" [leaf "name" "Tea"; leaf "market" "Spar"; leaf "count" "two"]] in
  let w := with_products [Product.mk "Apple" "Aldi" 5]
             (mkWorld Staff_new {[ "in.xml" := document tree ]}) in
  files w !! "in.xml" = Some (document tree) ∧
  ET.parsed (document tree) = inr tree ∧
  files (snd (load "in.xml" w)) = files w ∧
  load "in.xml" (snd (load "in.xml" w)) = load "in.xml" w.
Proof.
  intros tree w.
  assert (files w !! "in.xml" = Some (document tree)) as Hf by reflexivity.
  assert (ET.parsed (document tree) = inr tree) as Hp by reflexivity.
  split; [exact Hf|]. split; [exact Hp|].
  exact (load_twice w "in.xml" (document tree) tree Hf Hp).
Defined.

(** ** How many records a product element gives *)

(** Three fields need three children. *)
Lemma record_after_length (cs : list ET.Element) (p : Product) :
  record_after cs = Some p → (3 ≤ length cs)%nat.
Proof.
  destruct cs as [|a [|b [|c cs]]]; [..|simpl; lia];
    unfold record_after, field_text, field_count, last_with_tag;
    rewrite ?filter_cons, ?filter_nil;
    repeat case_decide; simpl; try done; try congruence;
    repeat (match goal with |- context [ET.text ?e] => destruct (ET.text e) end; simpl);
    done.
Qed.

Lemma element_records_short (pe : ET.Element) :
  (length (ET.children pe) < 3)%nat → element_records pe = [].
Proof.
  intros Hshort. unfold element_records. apply omap_all_None, Forall_forall.
  intros k _. destruct (record_after (take (S k) (ET.children pe))) as [p|] eqn:E; [|done].
  apply record_after_length in E. rewrite length_take in E. lia.
Qed.

Lemma parsed_records_short (tree : ET.Element) :
  Forall (λ pe, (length (ET.children pe) < 3)%nat) (ET.children tree) →
  parsed_records tree = [].
Proof.
  unfold parsed_records. induction 1 as [|pe pes Hpe _ IH]; [done|].
  by rewrite bind_cons, element_records_short, IH.
Qed.

(** X7. A product element with fewer than three children never gives a
    record: after [load] of a document all of whose product elements have at
    most two children the catalog is empty, whether [load] returns or raises
    on a rejected count. *)
Theorem load_short_products_empty
    (w : World) (filename : string) (f : ET.file) (tree : ET.Element) :
  files w !! filename = Some f → ET.parsed f = inr tree →
  Forall (λ pe, (length (ET.children pe) < 3)%nat) (ET.children tree) →
  products (self (snd (load filename w))) = [].
Proof.
  intros Hf Hp Hshort. rewrite (load_parsed w filename f tree Hf Hp).
  destruct (has_bad_count tree) eqn:Hbad.
  - destruct (load_tree_bad tree Hbad)
      as (i & j & pe & c & err & Hi & _ & _ & _ & _ & Hrun).
    rewrite Hrun. simpl. apply parsed_records_short.
    unfold cut_document. simpl. rewrite Hi. simpl.
    apply Forall_app. split.
    + by apply Forall_take.
    + constructor; [|done]. simpl. rewrite length_take.
      pose proof (proj1 (Forall_lookup _ _) Hshort i pe Hi). simpl in *. lia.
  - rewrite load_tree_ok by done. simpl. by apply parsed_records_short.
Qed.

Lemma load_short_products_empty_witness :
  let tree :=
    node "products"
      [node "product" [leaf "name" "Milk"; leaf "count" "2"];
       node "product" [leaf "market" "Spar"];
       node "product" []] in
  let w := with_products [Product.mk "Apple" "Aldi" 5]
             (mkWorld Staff_new {[ "in.xml" := document tree ]}) in
  files w !! "in.xml" = Some (document tree) ∧
  ET.parsed (document tree) = inr tree ∧
  Forall (λ pe, (length (ET.children pe) < 3)%nat) (ET.children tree) ∧
  products (self (snd (load "in.xml" w))) = [].
Proof.
  intros tree w.
  assert (files w !! "in.xml" = Some (document tree)) as Hf by reflexivity.
  assert (ET.parsed (document tree) = inr tree) as Hp by reflexivity.
  assert (Forall (λ pe, (length (ET.children pe) < 3)%nat) (ET.children tree))
    as Hshort by (repeat constructor).
  split; [exact Hf|]. split; [exact Hp|]. split; [exact Hshort|].
  exact (load_short_products_empty w "in.xml" (document tree) tree Hf Hp Hshort).
Defined.

Lemma load_child_other (e : ET.Element) (n m : string) (c : Z) (w : World) :
  other_tag e →
  load_child e (Some n, Some m, Some c) w =
    (Return (Some n, Some m, Some c),
     with_products (products (self w) ++ [Product.mk n m c]) w).
Proof.
  intros (Hn & Hm & Hc). unfold load_child.
  apply String.eqb_neq in Hn, Hm, Hc. by rewrite Hn, Hm, Hc.
Qed.

Lemma scan_others (extras : list ET.Element) (n m : string) (c : Z) (w : World) :
  Forall other_tag extras →
  for_in extras load_child (Some n, Some m, Some c) w =
    (Return (Some n, Some m, Some c),
     with_products
       (products (self w) ++ replicate (length extras) (Product.mk n m c)) w).
Proof.
  intros Hothers. revert w.
  induction Hothers as [|e extras He _ IH]; intros w; cbn [for_in].
  - unfold ret. simpl. by rewrite with_products_app_nil.
  - unfold bind. rewrite (load_child_other e n m c w He). rewrite IH.
    rewrite with_products_twice, products_with_products.
    by rewrite <- (assoc_L (++)).
Qed.

Lemma scan_triple (n m ct : string) (c : Z) (w : World) :
  Py.int (Some ct) = inr c →
  for_in [leaf "name" n; leaf "market" m; leaf "count" ct] load_child
    (None, None, None) w =
    (Return (Some n, Some m, Some c),
     with_products (products (self w) ++ [Product.mk n m c]) w).
Proof.
  intros Hint. cbn [for_in]. unfold bind, load_child, leaf. simpl.
  unfold bind, lift. by rewrite Hint.
Qed.

(** X8. Every further child with another tag that follows [name], [market]
    and [count] in a product element makes [load] append the record once
    more: with [k] such children the one product element gives [k + 1] equal
    records. *)
Theorem load_further_children_repeat
    (w : World) (filename : string) (f : ET.file) (tree pe : ET.Element)
    (n m ct : string) (c : Z) (extras : list ET.Element) :
  files w !! filename = Some f → ET.parsed f = inr tree →
  ET.children tree = [pe] →
  ET.children pe = [leaf "name" n; leaf "market" m; leaf "count" ct] ++ extras →
  Py.int (Some ct) = inr c →
  Forall other_tag extras →
  load filename w =
    (Return tt, with_products (replicate (S (length extras)) (Product.mk n m c)) w).
Proof.
  intros Hf Hp Htree Hpe Hint Hothers.
  rewrite (load_parsed w filename f tree Hf Hp).
  unfold load_tree, bind, set_products, for_each. rewrite Htree.
  cbn [for_in]. unfold bind, load_product, bind. rewrite Hpe, for_in_app.
  unfold bind. rewrite (scan_triple n m ct c _ Hint).
  rewrite scan_others by done. done.
Qed.

Lemma load_further_children_repeat_witness :
  let extras := [leaf "note" "fresh"; node "brand" []] in
  let pe := node "product"
              ([leaf "name" "Milk"; leaf "market" "Aldi"; leaf "count" " 2 "] ++ extras) in
  let tree := node "products" [pe] in
  let w := mkWorld Staff_new {[ "in.xml" := document tree ]} in
  files w !! "in.xml" = Some (document tree) ∧
  ET.parsed (document tree) = inr tree ∧
  ET.children tree = [pe] ∧
  ET.children pe = [leaf "name" "Milk"; leaf "market" "Aldi"; leaf "count" " 2 "] ++ extras ∧
  Py.int (Some " 2 ") = inr 2 ∧
  Forall other_tag extras ∧
  load "in.xml" w =
    (Return tt, with_products (replicate (S (length extras)) (Product.mk "Milk" "Aldi" 2)) w).
Proof.
  intros extras pe tree w.
  assert (files w !! "in.xml" = Some (document tree)) as Hf by reflexivity.
  assert (ET.parsed (document tree) = inr tree) as Hp by reflexivity.
  assert (ET.children tree = [pe]) as Htree by reflexivity.
  assert (ET.children pe
          = [leaf "name" "Milk"; leaf "market" "Aldi"; leaf "count" " 2 "] ++ extras)
    as Hpe by reflexivity.
  assert (Py.int (Some " 2 ") = inr 2) as Hint by reflexivity.
  assert (Forall other_tag extras) as Hothers.
  { repeat constructor; discriminate. }
  split; [exact Hf|]. split; [exact Hp|]. split; [exact Htree|].
  split; [exact Hpe|]. split; [exact Hint|]. split; [exact Hothers|].
  exact (load_further_children_repeat w "in.xml" (document tree) tree pe
           "Milk" "Aldi" " 2 " 2 extras Hf Hp Htree Hpe Hint Hothers).
Defined.

(** ** The order of the three fields *)

Lemma filter_tag_Permutation (t : string) (l l' : list ET.Element) (e : ET.Element) :
  l ≡ₚ l' → filter (λ x, ET.tag x = t) l' = [e] → last_with_tag t l = Some e.
Proof.
  intros Hperm Hl'. unfold last_with_tag.
  assert (filter (λ x, ET.tag x = t) l ≡ₚ [e]) as Hone.
  { by rewrite Hperm, Hl'. }
  by apply Permutation_singleton_r in Hone as ->.
Qed.

(** X9. The order of the [name], [market] and [count] children does not
    matter: a product element whose children are these three, in any order,
    gives exactly one record with the three values. *)
Theorem load_any_field_order
    (w : World) (filename : string) (f : ET.file) (tree pe : ET.Element)
    (n m ct : string) (c : Z) :
  files w !! filename = Some f → ET.parsed f = inr tree →
  ET.children tree = [pe] →
  ET.children pe ≡ₚ [leaf "name" n; leaf "market" m; leaf "count" ct] →
  Py.int (Some ct) = inr c →
  load filename w = (Return tt, with_products [Product.mk n m c] w).
Proof.
  intros Hf Hp Htree Hperm Hint.
  rewrite (load_parsed w filename f tree Hf Hp).
  assert (existsb bad_count (ET.children pe) = false) as Hbad.
  { apply not_true_is_false. intros [e [He Hbad]]%existsb_exists.
    apply list_elem_of_In in He. rewrite Hperm in He.
    unfold bad_count in Hbad.
    repeat (apply elem_of_cons in He as [->|He]); simpl in Hbad; try done.
    - by rewrite Hint in Hbad.
    - by apply elem_of_nil in He. }
  rewrite load_tree_ok by (unfold has_bad_count; rewrite Htree; simpl; by rewrite Hbad).
  unfold parsed_records. rewrite Htree, bind_cons. simpl.
  rewrite (right_id_L [] (++)), element_records_single.
  - unfold record_after, field_text, field_count.
    rewrite (filter_tag_Permutation "name" _ _ (leaf "name" n) Hperm) by done.
    rewrite (filter_tag_Permutation "market" _ _ (leaf "market" m) Hperm) by done.
    rewrite (filter_tag_Permutation "count" _ _ (leaf "count" ct) Hperm) by done.
    simpl. by rewrite Hint.
  - unfold single_completion. apply forallb_forall. intros k Hk%list_elem_of_In.
    apply elem_of_seq in Hk.
    destruct (record_after (take (S k) (ET.children pe))) as [p|] eqn:E; [|done].
    apply record_after_length in E. rewrite length_take in E.
    apply Permutation_length in Hperm. simpl in Hperm. lia.
Qed.

Lemma load_any_field_order_witness :
  let pe := node "product" [leaf "count" "4"; leaf "name" "Rice"; leaf "market" "Spar"] in
  let tree := node "products" [pe] in
  let w := with_products [Product.mk "Apple" "Aldi" 5]
             (mkWorld Staff_new {[ "in.xml" := document tree ]}) in
  files w !! "in.xml" = Some (document tree) ∧
  ET.parsed (document tree) = inr tree ∧
  ET.children tree = [pe] ∧
  ET.children pe ≡ₚ [leaf "name" "Rice"; leaf "market" "Spar"; leaf "count" "4"] ∧
  Py.int (Some "4") = inr 4 ∧
  load "in.xml" w = (Return tt, with_products [Product.mk "Rice" "Spar" 4] w).
Proof.
  intros pe tree w.
  assert (files w !! "in.xml" = Some (document tree)) as Hf by reflexivity.
  assert (ET.parsed (document tree) = inr tree) as Hp by reflexivity.
  assert (ET.children tree = [pe]) as Htree by reflexivity.
  assert (ET.children pe ≡ₚ [leaf "name" "Rice"; leaf "market" "Spar"; leaf "count" "4"])
    as Hperm.
  { simpl. apply (Permutation_cons_append [leaf "name" "Rice"; leaf "market" "Spar"]). }
  assert (Py.int (Some "4") = inr 4) as Hint by reflexivity.
  split; [exact Hf|]. split; [exact Hp|]. split; [exact Htree|].
  split; [exact Hperm|]. split; [exact Hint|].
  exact (load_any_field_order w "in.xml" (document tree) tree pe
           "Rice" "Spar" "4" 4 Hf Hp Htree Hperm Hint).
Defined.

(** * Further properties of [save] followed by [load] *)









(** * The table *)

Example table_of_two :
  let w := with_products [Product.mk "Apple" "Aldi" 5; Product.mk "Хлеб" "Lidl" (-3)]
             (mkWorld Staff_new ∅) in
  Staff_str w =
    (Return (Fmt.join (String "010" EmptyString)
      ["+------+--------------------------------+----------------------+------------+";
       "|  №   |       Название продукта        |     Имя магазина     | Стоимость  |";
       "+------+--------------------------------+----------------------+------------+";
       "|    1 | Apple                          | Aldi                 |          5 |";
       "|    2 | Хлеб                           | Lidl                 |         -3 |";
       "+------+--------------------------------+----------------------+------------+"]),
     w).
Proof. vm_compute. reflexivity. Qed.

Lemma len_app (a b : string) : Fmt.len (a +:+ b) = (Fmt.len a + Fmt.len b)%nat.
Proof.
  induction a as [|c a IH]; [done|].
  change (String c a +:+ b) with (String c (a +:+ b)).
  cbn [Fmt.len]. rewrite IH. lia.
Qed.

Lemma len_spaces (n : nat) : Fmt.len (Fmt.mul " " n) = n.
Proof.
  induction n as [|n IH]; [done|].
  cbn [Fmt.mul]. rewrite len_app, IH. reflexivity.
Qed.

Lemma len_format_left (width : nat) (s : string) :
  Fmt.len (Fmt.format_left width s) = (width `max` Fmt.len s)%nat.
Proof. unfold Fmt.format_left. rewrite len_app, len_spaces. lia. Qed.

Lemma len_format_right (width : nat) (s : string) :
  Fmt.len (Fmt.format_right width s) = (width `max` Fmt.len s)%nat.
Proof. unfold Fmt.format_right. rewrite len_app, len_spaces. lia. Qed.

(** The width of a product line: 77 when every field fits its column, and
    wider by the excess of each field that does not. *)
Lemma table_row_len (idx : Z) (p : Product) :
  Fmt.len (table_row idx p) =
    (13 + (4 `max` Fmt.len (Py.str idx)) + (30 `max` Fmt.len (Product.name p))
        + (20 `max` Fmt.len (Product.market p))
        + (10 `max` Fmt.len (Py.str (Product.count p))))%nat.
Proof.
  unfold table_row.
  rewrite !len_app, !len_format_left, !len_format_right.
  change (Fmt.len "| ") with 2%nat. change (Fmt.len " | ") with 3%nat.
  change (Fmt.len " |") with 2%nat. lia.
Qed.

(** The decimal form of an index below 10000 has at most four digits. *)
Lemma len_str_index (i : nat) :
  Z.of_nat i < 10000 → (Fmt.len (Py.str (Z.of_nat i)) ≤ 4)%nat.
Proof.
  intros Hi.
  assert (forallb (λ k, Fmt.len (Py.str (Z.of_nat k)) <=? 4)%nat
                  (seq 0 (Z.to_nat 10000)) = true)
    as Hall by (vm_compute; reflexivity).
  apply Nat.leb_le.
  apply (proj1 (forallb_forall _ _) Hall i), in_seq. lia.
Qed.

Lemma table_loop (l : list (Z * Product)) (table : list string) (w : World) :
  for_in l (λ '(idx, product) table, ret (table ++ [table_row idx product])) table w
  = (Return (table ++ ((λ x, table_row x.1 x.2) <$> l)), w).
Proof.
  revert table. induction l as [|[idx p] l IH]; intros table; cbn [for_in].
  - unfold ret. by rewrite fmap_nil, (right_id_L [] (++)).
  - unfold bind, ret. rewrite IH, fmap_cons. by rewrite <- (assoc_L (++)).
Qed.

Lemma Staff_table_run (w : World) :
  Staff_table w =
    (Return ([table_border; table_header; table_border]
             ++ imap (λ i p, table_row (1 + Z.of_nat i) p) (products (self w))
             ++ [table_border]), w).
Proof.
  unfold Staff_table, bind, get_products. rewrite table_loop.
  unfold ret, Fmt.enumerate. rewrite fmap_imap. reflexivity.
Qed.

(** X11. The table [__str__] builds has one line per record between a
    header framed by border lines and a closing border line, and leaves the
    world as it is.  No line is narrower than the 77 characters of the
    border; with fewer than 10000 records whose fields all fit their columns
    every line is exactly 77 characters wide, and a field that does not fit
    is never cut: it makes its line wider, by its excess. *)
Theorem table_shape (w : World) :
  ∃ table : list string,
    Staff_table w = (Return table, w) ∧
    Staff_str w = (Return (Fmt.join (String "010" EmptyString) table), w) ∧
    length table = (4 + length (products (self w)))%nat ∧
    head table = Some table_border ∧ last table = Some table_border ∧
    (∀ (i : nat) p, products (self w) !! i = Some p →
       table !! (3 + i)%nat = Some (table_row (1 + Z.of_nat i) p) ∧
       Fmt.len (table_row (1 + Z.of_nat i) p) =
         (13 + (4 `max` Fmt.len (Py.str (1 + Z.of_nat i)))
             + (30 `max` Fmt.len (Product.name p))
             + (20 `max` Fmt.len (Product.market p))
             + (10 `max` Fmt.len (Py.str (Product.count p))))%nat) ∧
    Forall (λ l, (77 ≤ Fmt.len l)%nat) table ∧
    (Z.of_nat (length (products (self w))) < 10000 →
     Forall fits_columns (products (self w)) →
     Forall (λ l, Fmt.len l = 77%nat) table).
Proof.
  eexists. split; [apply Staff_table_run|].
  assert (Fmt.len table_border = 77%nat) as Hborder by reflexivity.
  assert (Fmt.len table_header = 77%nat) as Hheader by (vm_compute; reflexivity).
  split_and!.
  - unfold Staff_str, bind. by rewrite Staff_table_run.
  - simpl. rewrite length_app, length_imap. simpl. lia.
  - done.
  - by rewrite (assoc_L (++)), last_snoc.
  - intros i p Hi. split; [|apply table_row_len].
    change (3 + i)%nat with (S (S (S i))). simpl.
    rewrite lookup_app_l by (rewrite length_imap; by apply lookup_lt_Some in Hi).
    by rewrite list_lookup_imap, Hi.
  - repeat (constructor; [lia|]). apply Forall_app. split; [|by repeat constructor; lia].
    apply Forall_forall. intros l Hl.
    apply list_elem_of_lookup in Hl as [i Hl].
    rewrite list_lookup_imap in Hl.
    destruct (products (self w) !! i) as [p|]; [|done]. injection Hl as <-.
    rewrite table_row_len. lia.
  - intros Hmany Hfit.
    repeat (constructor; [done|]). apply Forall_app. split; [|by repeat constructor].
    apply Forall_forall. intros l Hl.
    apply list_elem_of_lookup in Hl as [i Hl].
    rewrite list_lookup_imap in Hl.
    destruct (products (self w) !! i) as [p|] eqn:Hp; [|done]. injection Hl as <-.
    rewrite table_row_len.
    pose proof (proj1 (Forall_lookup _ _) Hfit i p Hp) as (Hn & Hm & Hc).
    apply lookup_lt_Some in Hp.
    pose proof (len_str_index (S i)) as Hidx.
    replace (Z.of_nat (S i)) with (1 + Z.of_nat i) in Hidx by lia.
    lia.
Qed.

Lemma table_shape_witness :
  let w := with_products [Product.mk "Apple" "Aldi" 5; Product.mk "Хлеб" "Lidl" (-3)]
             (mkWorld Staff_new ∅) in
  Z.of_nat (length (products (self w))) < 10000 ∧
  Forall fits_columns (products (self w)) ∧
  ∃ table : list string,
    Staff_str w = (Return (Fmt.join (String "010" EmptyString) table), w) ∧
    Forall (λ l, Fmt.len l = 77%nat) table.
Proof.
  intros w.
  assert (Z.of_nat (length (products (self w))) < 10000) as Hmany by (simpl; lia).
  assert (Forall fits_columns (products (self w))) as Hfit.
  { repeat constructor; vm_compute; lia. }
  split; [exact Hmany|]. split; [exact Hfit|].
  destruct (table_shape w) as (table & _ & Hstr & _ & _ & _ & _ & _ & Hexact).
  exists table. split; [exact Hstr|]. exact (Hexact Hmany Hfit).
Defined.

(** A name longer than its column is kept whole and widens its line. *)
Example table_overflow :
  let p := Product.mk "Extra virgin olive oil, cold pressed" "Aldi" 12345678901 in
  Fmt.len (Product.name p) = 36%nat ∧ Fmt.len (table_row 1 p) = 84%nat.
Proof. split; vm_compute; reflexivity. Qed.

(** * The command loop *)

Example split_examples :
  Str.split_maxsplit_1 "select " = ["select"] ∧
  Str.split_maxsplit_1 "select  a b " = ["select"; "a b "] ∧
  Str.split_maxsplit_1 ("select" +:+ String "009" "a") = ["select"; "a"] ∧
  Str.split_maxsplit_1 ("select " +:+ String "194" (String "160" "a")) = ["select"; "a"] ∧
  Str.split_maxsplit_1 " select a" = ["select"; "a"] ∧
  Str.split_maxsplit_1 "   " = [].
Proof. repeat split. Qed.

Lemma report_run (exc : exception) (s : Session) :
  report exc s = (Returned false, reported exc s).
Proof.
  unfold report, reported, io_bind, exception_str, logging, print_stderr, io_ret.
  destruct exc as [[]| | |]; simpl; by rewrite <- ?(assoc_L (++)).
Qed.

Lemma iteration_read (lower : string → string) (s : Session) (line : string)
    (rest : list string) :
  stdin s = line :: rest →
  iteration lower s = try_except (dispatch (lower line)) report (prompted s).
Proof.
  intros Hin. unfold iteration, try_except, io_bind, input, prompted.
  by rewrite Hin.
Qed.

Lemma iteration_eof (lower : string → string) (s : Session) :
  stdin s = [] →
  iteration lower s = (Returned false, reported EOFError (prompted s)).
Proof.
  intros Hin. unfold iteration, try_except, io_bind, input.
  rewrite Hin. rewrite report_run. unfold prompted. by rewrite Hin.
Qed.

Lemma never_stops_ret : never_stops (io_ret false).
Proof. intros s r s' [= <- _]. discriminate. Qed.

Lemma never_stops_raise (e : exception) : never_stops (io_raise e).
Proof. intros s r s' [= <- _]. discriminate. Qed.

Lemma never_stops_bind {A} (m : IO A) (k : A → IO bool) :
  (∀ a, never_stops (k a)) → never_stops (io_bind m k).
Proof.
  intros Hk s r s'. unfold io_bind.
  destruct (m s) as [[a|e] s1]; [apply Hk|]. intros [= <- _]. discriminate.
Qed.

Lemma dispatch_never_stops (command : string) :
  command ≠ "exit" → never_stops (dispatch command).
Proof.
  intros Hexit%String.eqb_neq. unfold dispatch. rewrite Hexit.
  repeat match goal with
         | |- never_stops (if ?b then _ else _) => destruct b
         | |- never_stops (io_bind _ _) => apply never_stops_bind; intros ?
         | |- never_stops (io_ret false) => apply never_stops_ret
         | |- never_stops (io_raise _) => apply never_stops_raise
         end.
Qed.

(** X12. One pass through the loop never lets an exception escape, and it
    leaves the loop exactly when the line read lower-cases to [exit]; then
    nothing but the prompt has been written.  An unknown command, a failing
    command and the end of the input all keep the loop going. *)
Theorem loop_leaves_only_on_exit (lower : string → string) (s : Session) :
  ∃ (stop : bool) (s' : Session),
    iteration lower s = (Returned stop, s') ∧
    (stop = true ↔ ∃ line, head (stdin s) = Some line ∧ lower line = "exit") ∧
    (stop = true → s' = prompted s).
Proof.
  destruct (stdin s) as [|line rest] eqn:Hin.
  { exists false, (reported EOFError (prompted s)).
    split; [by apply iteration_eof|]. split; [|done].
    split; [done|]. by intros (line & ? & _). }
  rewrite (iteration_read lower s line rest Hin). unfold try_except.
  destruct (String.eqb_spec (lower line) "exit") as [Hexit|Hexit].
  - exists true, (prompted s). unfold dispatch. rewrite Hexit. simpl.
    split; [done|]. split; [|done]. split; [|done]. intros _. by exists line.
  - pose proof (dispatch_never_stops (lower line) Hexit (prompted s)) as Hnever.
    destruct (dispatch (lower line) (prompted s)) as [[stop|e] s1].
    + exists stop, s1. split; [done|].
      assert (stop = false) as ->.
      { destruct stop; [|done]. by destruct (Hnever _ _ eq_refl). }
      split; [|done]. split; [done|]. by intros (line' & [= <-] & ?).
    + exists false, (reported e s1). split; [apply report_run|].
      split; [|done]. split; [done|]. by intros (line' & [= <-] & ?).
Qed.

(** At the end of the input [input] raises [EOFError], which the handler
    swallows like any other exception. *)
Lemma main_loop_eof (lower : string → string) (fuel : nat) (s : Session) :
  stdin s = [] →
  main_loop lower fuel s =
    (Returned false,
     mkSession (world s) []
       (stdout s ++ replicate fuel ">>> ")
       (stderr s ++ replicate fuel [StrOf EOFError])
       (log s ++ replicate fuel (ERROR, [Str "Ошибка: "; StrOf EOFError]))).
Proof.
  revert s. induction fuel as [|fuel IH]; intros s Hin; cbn [main_loop].
  - unfold io_ret. simpl. rewrite !(right_id_L [] (++)). destruct s; simpl in *.
    by rewrite Hin.
  - unfold io_bind. rewrite iteration_eof by done.
    rewrite IH by (unfold reported, prompted; simpl; by rewrite Hin).
    unfold reported, prompted. simpl.
    by rewrite <- !(assoc_L (++)).
Qed.

(** X13. Once the input is exhausted the loop never ends: for every number
    of passes, the loop is still running after that many passes, each pass
    having written one prompt, one error text and one [ERROR] record, with
    the catalog and the files untouched. *)
Theorem loop_spins_at_end_of_input
    (lower : string → string) (fuel : nat) (s : Session) :
  stdin s = [] →
  ∃ s', main_loop lower fuel s = (Returned false, s') ∧
        world s' = world s ∧ stdin s' = [] ∧
        stdout s' = stdout s ++ replicate fuel ">>> " ∧
        stderr s' = stderr s ++ replicate fuel [StrOf EOFError] ∧
        log s' = log s ++ replicate fuel (ERROR, [Str "Ошибка: "; StrOf EOFError]).
Proof.
  intros Hin. eexists. split; [by apply main_loop_eof|]. done.
Qed.

Lemma loop_spins_at_end_of_input_witness :
  let s := start ∅ [] in
  stdin s = [] ∧
  ∃ s', main_loop Str.ascii_lower 3 s = (Returned false, s') ∧
        world s' = world s ∧ stdin s' = [] ∧
        stdout s' = stdout s ++ replicate 3 ">>> " ∧
        stderr s' = stderr s ++ replicate 3 [StrOf EOFError] ∧
        log s' = log s ++ replicate 3 (ERROR, [Str "Ошибка: "; StrOf EOFError]).
Proof.
  intros s. assert (stdin s = []) as Hin by reflexivity.
  split; [exact Hin|].
  exact (loop_spins_at_end_of_input Str.ascii_lower 3 s Hin).
Defined.

(** ** Splitting the command line *)


Lemma skip_spaces_space (tail : string) :
  Str.skip_spaces (String " " tail) = Str.skip_spaces tail.
Proof. reflexivity. Qed.

Lemma split_select (tail : string) :
  Str.split_maxsplit_1 ("select " +:+ tail) =
    match Str.skip_spaces tail with
    | EmptyString => ["select"]
    | query => ["select"; query]
    end.
Proof.
  assert (Str.break_word ("select " +:+ tail) = ("select", String " " tail)) as Hw.
  { by destruct tail. }
  unfold Str.split_maxsplit_1.
  change (Str.skip_spaces ("select " +:+ tail)) with (String "s" ("elect " +:+ tail)).
  cbv iota. change (String "s" ("elect " +:+ tail)) with ("select " +:+ tail).
  rewrite Hw. by rewrite skip_spaces_space.
Qed.

(** ** Commands that fail *)

(** X14. A line that lower-cases to none of the commands changes neither the
    catalog nor the files: [UnknownCommandError] is raised and caught, its
    text, the command as lower-cased followed by [ -> Unknown command], goes
    to standard error and, at level [ERROR], to the log, and the loop goes
    on with the next line. *)
Theorem unknown_command_reported
    (lower : string → string) (s : Session) (line : string) (rest : list string) :
  stdin s = line :: rest →
  recognised (lower line) = false →
  iteration lower s =
    (Returned false,
     mkSession (world s) rest (stdout s ++ [">>> "])
       (stderr s ++ [[Str (lower line +:+ " -> Unknown command")]])
       (log s ++ [(ERROR, [Str "Ошибка: "; Str (lower line +:+ " -> Unknown command")])])).
Proof.
  intros Hin Hr. rewrite (iteration_read lower s line rest Hin).
  unfold recognised in Hr. repeat apply orb_false_elim in Hr as [Hr ?].
  unfold try_except, dispatch.
  repeat match goal with H : _ = false |- _ => rewrite H; clear H end.
  unfold io_raise. rewrite report_run. unfold reported, prompted. simpl.
  by rewrite Hin.
Qed.

Lemma unknown_command_reported_witness :
  let s := start ∅ ["Select"; "exit"] in
  stdin s = ["Select"; "exit"] ∧
  recognised (Str.ascii_lower "Select") = false ∧
  iteration Str.ascii_lower s =
    (Returned false,
     mkSession (world s) ["exit"] (stdout s ++ [">>> "])
       (stderr s ++ [[Str (Str.ascii_lower "Select" +:+ " -> Unknown command")]])
       (log s ++ [(ERROR, [Str "Ошибка: ";
                           Str (Str.ascii_lower "Select" +:+ " -> Unknown command")])])).
Proof.
  intros s.
  assert (stdin s = ["Select"; "exit"]) as Hin by reflexivity.
  assert (recognised (Str.ascii_lower "Select") = false) as Hr by reflexivity.
  split; [exact Hin|]. split; [exact Hr|].
  exact (unknown_command_reported Str.ascii_lower s "Select" ["exit"] Hin Hr).
Defined.

Lemma iteration_add (lower : string → string) (s : Session)
    (line name market text : string) (rest : list string) :
  stdin s = line :: name :: market :: text :: rest →
  lower line = "add" →
  iteration lower s =
    try_except
      (count <- staff_call (lift (Py.int (Some text))) ;;
       staff_call (add name market count) ;;
       logging INFO [Str ("Добавлен продукт: " +:+ name +:+ ", " +:+ market +:+ ", "
                          +:+ "стоимостью в " +:+ Py.str count +:+ " рублей.")] ;;
       io_ret false)%io
      report
      (mkSession (world s) rest
         (stdout s ++ [">>> "; "Название товара? "; "Магазин? "; "Стоимость? "])
         (stderr s) (log s)).
Proof.
  intros Hin Hadd. rewrite (iteration_read lower s line _ Hin), Hadd.
  unfold try_except, dispatch. cbn [String.eqb Ascii.eqb Bool.eqb].
  unfold io_bind at 1 2 3 4. unfold input at 1. unfold prompted. simpl.
  rewrite Hin. simpl. by rewrite <- !(assoc_L (++)).
Qed.

(** X15. An [add] command whose price reads as a negative number leaves the
    catalog and the files as they were and keeps the loop going.  The four
    lines are consumed, and since the handler takes the text of the
    exception twice and [IllegalCount.__str__] logs on each use, the log
    gets three records: the text at level [INFO], the error at level
    [ERROR], and the text at level [INFO] again. *)
Theorem add_negative_through_loop
    (lower : string → string) (s : Session)
    (line name market text : string) (rest : list string) (count : Z) :
  stdin s = line :: name :: market :: text :: rest →
  lower line = "add" →
  Py.int (Some text) = inr count →
  count < 0 →
  let text := Str (Py.str count +:+ " -> Illegall count") in
  iteration lower s =
    (Returned false,
     mkSession (world s) rest
       (stdout s ++ [">>> "; "Название товара? "; "Магазин? "; "Стоимость? "])
       (stderr s ++ [[text]])
       (log s ++ [(INFO, [text]); (ERROR, [Str "Ошибка: "; text]); (INFO, [text])])).
Proof.
  intros Hin Hadd Hint Hneg msg.
  rewrite (iteration_add lower s line name market text rest Hin Hadd).
  unfold try_except, io_bind, staff_call. rewrite Hint. cbn [lift ret world].
  unfold add. destruct (Z.ltb_spec count 0) as [_|?]; [|lia].
  unfold raise. rewrite report_run. unfold reported. simpl.
  by destruct (world s).
Qed.

Lemma add_negative_through_loop_witness :
  let s := start ∅ ["ADD"; "Tea"; "Spar"; " -5 "; "list"] in
  let text := Str (Py.str (-5) +:+ " -> Illegall count") in
  stdin s = ["ADD"; "Tea"; "Spar"; " -5 "; "list"] ∧
  Str.ascii_lower "ADD" = "add" ∧
  Py.int (Some " -5 ") = inr (-5) ∧
  -5 < 0 ∧
  iteration Str.ascii_lower s =
    (Returned false,
     mkSession (world s) ["list"]
       (stdout s ++ [">>> "; "Название товара? "; "Магазин? "; "Стоимость? "])
       (stderr s ++ [[text]])
       (log s ++ [(INFO, [text]); (ERROR, [Str "Ошибка: "; text]); (INFO, [text])])).
Proof.
  intros s text.
  assert (stdin s = ["ADD"; "Tea"; "Spar"; " -5 "; "list"]) as Hin by reflexivity.
  assert (Str.ascii_lower "ADD" = "add") as Hadd by reflexivity.
  assert (Py.int (Some " -5 ") = inr (-5)) as Hint by reflexivity.
  assert (-5 < 0) as Hneg by lia.
  split; [exact Hin|]. split; [exact Hadd|]. split; [exact Hint|].
  split; [exact Hneg|].
  exact (add_negative_through_loop Str.ascii_lower s "ADD" "Tea" "Spar" " -5 "
           ["list"] (-5) Hin Hadd Hint Hneg).
Defined.

(** X16. An [add] command whose price is not the text of an integer fails
    with [ValueError] after the three questions: nothing is added, the
    exception is reported once on standard error and once in the log, and
    the loop goes on. *)
Theorem add_bad_price_through_loop
    (lower : string → string) (s : Session)
    (line name market text : string) (rest : list string) (e : Py.exn) :
  stdin s = line :: name :: market :: text :: rest →
  lower line = "add" →
  Py.int (Some text) = inl e →
  iteration lower s =
    (Returned false,
     mkSession (world s) rest
       (stdout s ++ [">>> "; "Название товара? "; "Магазин? "; "Стоимость? "])
       (stderr s ++ [[StrOf (Escaped Py.ValueError)]])
       (log s ++ [(ERROR, [Str "Ошибка: "; StrOf (Escaped Py.ValueError)])])).
Proof.
  intros Hin Hadd Hint.
  rewrite (iteration_add lower s line name market text rest Hin Hadd).
  assert (e = Py.ValueError) as ->.
  { revert Hint. unfold Py.int.
    destruct (Py.ascii_text text ≫= _); [done|]. by intros [= <-]. }
  unfold try_except, io_bind, staff_call. rewrite Hint. cbn [lift raise world].
  rewrite report_run. unfold reported. simpl.
  by destruct (world s).
Qed.

Lemma add_bad_price_through_loop_witness :
  let s := start ∅ ["add"; "Tea"; "Spar"; "4.5"] in
  stdin s = ["add"; "Tea"; "Spar"; "4.5"] ∧
  Str.ascii_lower "add" = "add" ∧
  Py.int (Some "4.5") = inl Py.ValueError ∧
  iteration Str.ascii_lower s =
    (Returned false,
     mkSession (world s) []
       (stdout s ++ [">>> "; "Название товара? "; "Магазин? "; "Стоимость? "])
       (stderr s ++ [[StrOf (Escaped Py.ValueError)]])
       (log s ++ [(ERROR, [Str "Ошибка: "; StrOf (Escaped Py.ValueError)])])).
Proof.
  intros s.
  assert (stdin s = ["add"; "Tea"; "Spar"; "4.5"]) as Hin by reflexivity.
  assert (Str.ascii_lower "add" = "add") as Hadd by reflexivity.
  assert (Py.int (Some "4.5") = inl Py.ValueError) as Hint by reflexivity.
  split; [exact Hin|]. split; [exact Hadd|]. split; [exact Hint|].
  exact (add_bad_price_through_loop Str.ascii_lower s "add" "Tea" "Spar" "4.5"
           [] Py.ValueError Hin Hadd Hint).
Defined.

(** X17. An accepted [add] command stores the name and the shop exactly as
    typed (only the command word is lower-cased) and the price as [int]
    read it, at the place the stable sort by name gives the new record; the
    log gets one [INFO] record with the price printed from the number, and
    nothing goes to standard error. *)
Theorem add_accepted_through_loop
    (lower : string → string) (s : Session)
    (line name market text : string) (rest : list string) (count : Z) :
  stdin s = line :: name :: market :: text :: rest →
  lower line = "add" →
  Py.int (Some text) = inr count →
  0 ≤ count →
  iteration lower s =
    (Returned false,
     mkSession
       (with_products
          (Py.sort Product.name
             (products (self (world s)) ++ [Product.mk name market count]))
          (world s))
       rest
       (stdout s ++ [">>> "; "Название товара? "; "Магазин? "; "Стоимость? "])
       (stderr s)
       (log s ++ [(INFO, [Str ("Добавлен продукт: " +:+ name +:+ ", " +:+ market
                               +:+ ", стоимостью в " +:+ Py.str count
                               +:+ " рублей.")])])).
Proof.
  intros Hin Hadd Hint Hpos.
  rewrite (iteration_add lower s line name market text rest Hin Hadd).
  unfold try_except, io_bind, staff_call. rewrite Hint. cbn [lift ret world].
  rewrite add_accepted by done. simpl.
  by destruct (world s).
Qed.

Lemma add_accepted_through_loop_witness :
  let s := start ∅ ["Add"; "Tea"; "SPAR"; "+0_7"] in
  stdin s = ["Add"; "Tea"; "SPAR"; "+0_7"] ∧
  Str.ascii_lower "Add" = "add" ∧
  Py.int (Some "+0_7") = inr 7 ∧
  0 ≤ 7 ∧
  iteration Str.ascii_lower s =
    (Returned false,
     mkSession
       (with_products
          (Py.sort Product.name
             (products (self (world s)) ++ [Product.mk "Tea" "SPAR" 7]))
          (world s))
       []
       (stdout s ++ [">>> "; "Название товара? "; "Магазин? "; "Стоимость? "])
       (stderr s)
       (log s ++ [(INFO, [Str ("Добавлен продукт: " +:+ "Tea" +:+ ", " +:+ "SPAR"
                               +:+ ", стоимостью в " +:+ Py.str 7
                               +:+ " рублей.")])])).
Proof.
  intros s.
  assert (stdin s = ["Add"; "Tea"; "SPAR"; "+0_7"]) as Hin by reflexivity.
  assert (Str.ascii_lower "Add" = "add") as Hadd by reflexivity.
  assert (Py.int (Some "+0_7") = inr 7) as Hint by reflexivity.
  assert (0 ≤ 7) as Hpos by lia.
  split; [exact Hin|]. split; [exact Hadd|]. split; [exact Hint|].
  split; [exact Hpos|].
  exact (add_accepted_through_loop Str.ascii_lower s "Add" "Tea" "SPAR" "+0_7"
           [] 7 Hin Hadd Hint Hpos).
Defined.


(** ** [select] through the loop *)

Lemma print_rows (rows : list (Z * Product)) (s : Session) :
  io_for_each rows
    (λ '(idx, product),
       print (Fmt.format_right 4 (Py.str idx) +:+ ": " +:+ Product.name product)) s
  = (Returned tt,
     mkSession (world s) (stdin s)
       (stdout s ++ ((λ x, (Fmt.format_right 4 (Py.str x.1) +:+ ": " +:+ Product.name x.2)
                           +:+ String "010" EmptyString) <$> rows))
       (stderr s) (log s)).
Proof.
  revert s. induction rows as [|[idx product] rows IH]; intros s.
  - simpl. rewrite (right_id_L [] (++)). by destruct s.
  - cbn [io_for_each]. unfold io_bind, print at 1. rewrite IH. simpl.
    by rewrite <- !(assoc_L (++)).
Qed.

Lemma iteration_select (lower : string → string) (s : Session)
    (line tail : string) (rest : list string) :
  stdin s = line :: rest →
  lower line = "select " +:+ tail →
  iteration lower s =
    match Str.skip_spaces tail with
    | EmptyString => (Returned false, reported IndexError (prompted s))
    | query =>
        let selected :=
          filter (λ p, Product.name p = query) (products (self (world s))) in
        (Returned false,
         mkSession (world s) rest (stdout s ++ ">>> " :: select_lines selected)
           (stderr s) (log s ++ [select_record query selected]))
    end.
Proof.
  intros Hin Hsel. rewrite (iteration_read lower s line rest Hin), Hsel.
  unfold try_except, dispatch.
  change (String.eqb ("select " +:+ tail) "exit") with false.
  change (String.eqb ("select " +:+ tail) "add") with false.
  change (String.eqb ("select " +:+ tail) "list") with false.
  assert (Str.startswith ("select " +:+ tail) "select " = true) as ->
    by by destruct tail.
  cbv iota. rewrite split_select.
  destruct (Str.skip_spaces tail) as [|c query] eqn:Hq.
  { unfold io_bind, index_1. simpl. unfold io_raise. by rewrite report_run. }
  unfold io_bind at 1 2. unfold index_1 at 1. cbn [lookup list_lookup io_ret].
  unfold io_bind at 2. unfold staff_call. rewrite select_run.
  unfold prompted. cbn [world stdin stdout stderr log]. rewrite Hin. cbn [tl].
  destruct (filter _ _) as [|p selected] eqn:Hf.
  - simpl. by rewrite <- !(assoc_L (++)).
  - unfold io_bind at 1 2. rewrite print_rows. simpl.
    by rewrite <- !(assoc_L (++)).
Qed.


(** X18. A [select] command looks up the text that follows the command word
    in the lower-cased line, from its first character that is not white
    space to the end of the line, trailing white space included.  The
    records with exactly that name are listed in catalog order, numbered
    from 1, or the not-found message is written; the catalog and the files
    stay as they were and one record goes to the log. *)
Theorem select_through_loop
    (lower : string → string) (s : Session) (line tail : string)
    (rest : list string) :
  stdin s = line :: rest →
  lower line = "select " +:+ tail →
  Str.skip_spaces tail ≠ EmptyString →
  let query := Str.skip_spaces tail in
  let selected := filter (λ p, Product.name p = query) (products (self (world s))) in
  iteration lower s =
    (Returned false,
     mkSession (world s) rest (stdout s ++ ">>> " :: select_lines selected)
       (stderr s) (log s ++ [select_record query selected])).
Proof.
  intros Hin Hsel Hq query selected.
  rewrite (iteration_select lower s line tail rest Hin Hsel).
  subst selected query. by destruct (Str.skip_spaces tail).
Qed.

Lemma select_through_loop_witness :
  let s := mkSession
             (with_products [Product.mk "milk" "Aldi" 2; Product.mk "tea " "Spar" 1;
                             Product.mk "tea " "Lidl" 4]
                (mkWorld Staff_new ∅))
             ["SELECT   Tea "; "exit"] [] [] [] in
  let query := Str.skip_spaces "  tea " in
  let selected := filter (λ p, Product.name p = query) (products (self (world s))) in
  stdin s = ["SELECT   Tea "; "exit"] ∧
  Str.ascii_lower "SELECT   Tea " = "select " +:+ "  tea " ∧
  Str.skip_spaces "  tea " ≠ EmptyString ∧
  selected = [Product.mk "tea " "Spar" 1; Product.mk "tea " "Lidl" 4] ∧
  iteration Str.ascii_lower s =
    (Returned false,
     mkSession (world s) ["exit"] (stdout s ++ ">>> " :: select_lines selected)
       (stderr s) (log s ++ [select_record query selected])).
Proof.
  intros s query selected.
  assert (stdin s = ["SELECT   Tea "; "exit"]) as Hin by reflexivity.
  assert (Str.ascii_lower "SELECT   Tea " = "select " +:+ "  tea ") as Hsel
    by reflexivity.
  assert (Str.skip_spaces "  tea " ≠ EmptyString) as Hq by discriminate.
  split; [exact Hin|]. split; [exact Hsel|]. split; [exact Hq|].
  split; [reflexivity|].
  exact (select_through_loop Str.ascii_lower s "SELECT   Tea " "  tea " ["exit"]
           Hin Hsel Hq).
Defined.

(** X19. A [select] command with nothing but white space after the command
    word fails on [parts[1]]: [IndexError] is caught and reported, nothing
    is looked up, and the loop goes on. *)
Theorem select_without_name_reported
    (lower : string → string) (s : Session) (line tail : string)
    (rest : list string) :
  stdin s = line :: rest →
  lower line = "select " +:+ tail →
  Str.skip_spaces tail = EmptyString →
  iteration lower s =
    (Returned false,
     mkSession (world s) rest (stdout s ++ [">>> "])
       (stderr s ++ [[StrOf IndexError]])
       (log s ++ [(ERROR, [Str "Ошибка: "; StrOf IndexError])])).
Proof.
  intros Hin Hsel Hq.
  rewrite (iteration_select lower s line tail rest Hin Hsel), Hq.
  unfold reported, prompted. simpl. by rewrite Hin.
Qed.

Lemma select_without_name_reported_witness :
  let s := start ∅ ["select   "] in
  stdin s = ["select   "] ∧
  Str.ascii_lower "select   " = "select " +:+ "  " ∧
  Str.skip_spaces "  " = EmptyString ∧
  iteration Str.ascii_lower s =
    (Returned false,
     mkSession (world s) [] (stdout s ++ [">>> "])
       (stderr s ++ [[StrOf IndexError]])
       (log s ++ [(ERROR, [Str "Ошибка: "; StrOf IndexError])])).
Proof.
  intros s.
  assert (stdin s = ["select   "]) as Hin by reflexivity.
  assert (Str.ascii_lower "select   " = "select " +:+ "  ") as Hsel by reflexivity.
  assert (Str.skip_spaces "  " = EmptyString) as Hq by reflexivity.
  split; [exact Hin|]. split; [exact Hsel|]. split; [exact Hq|].
  exact (select_without_name_reported Str.ascii_lower s "select   " "  " [] Hin Hsel Hq).
Defined.

Lemma no_upper_skip_spaces (s : string) :
  Str.no_upper s = true → Str.no_upper (Str.skip_spaces s) = true.
Proof.
  unfold Str.no_upper.
  assert (∀ n s, (String.length s ≤ n)%nat →
            ET.string_forallb (λ c, negb (Str.upper_letter c)) s = true →
            ET.string_forallb (λ c, negb (Str.upper_letter c)) (Str.skip_spaces s)
            = true) as Hn.
  { clear s. intros n. induction n as [|n IH]; intros s Hlen Hs.
    { by destruct s; [|simpl in Hlen; lia]. }
    destruct s as [|c s1]; [done|]. cbn [Str.skip_spaces].
    simpl in Hlen. pose proof Hs as Hs0.
    cbn [ET.string_forallb] in Hs. apply andb_prop in Hs as [_ Hs1].
    destruct (Str.space1 c); [apply IH; [lia|done]|].
    destruct s1 as [|c1 s2]; [done|].
    simpl in Hlen. cbn [ET.string_forallb] in Hs1. apply andb_prop in Hs1 as [_ Hs2].
    destruct (Str.space2 c c1); [apply IH; [lia|done]|].
    destruct s2 as [|c2 s3]; [done|].
    simpl in Hlen. cbn [ET.string_forallb] in Hs2. apply andb_prop in Hs2 as [_ Hs3].
    destruct (Str.space3 c c1 c2); [apply IH; [lia|done]|]. done. }
  apply (Hn (String.length s)). lia.
Qed.

Lemma ascii_lower_no_upper (l : string) : Str.no_upper (Str.ascii_lower l) = true.
Proof.
  unfold Str.no_upper. induction l as [|c l IH]; [done|].
  cbn [Str.ascii_lower ET.string_forallb]. rewrite IH, andb_true_r.
  by destruct c as [[] [] [] [] [] [] [] []].
Qed.

Lemma filter_none {A} (P : A → Prop) `{∀ x, Decision (P x)} (l : list A) :
  Forall (λ x, ¬ P x) l → filter P l = [].
Proof.
  induction 1 as [|x l Hx _ IH]; [done|].
  by rewrite filter_cons, decide_False.
Qed.

(** X20. Names are stored as typed but looked up lower-cased: when
    lower-casing leaves no ASCII upper-case letter, a record whose name has
    one is out of reach of the [select] command.  If every name in the
    catalog has such a letter, every [select] with a name answers with the
    not-found message and a [WARNING] record. *)
Theorem select_misses_upper_case_names
    (lower : string → string) (s : Session) (line tail : string)
    (rest : list string) :
  (∀ l, Str.no_upper (lower l) = true) →
  stdin s = line :: rest →
  lower line = "select " +:+ tail →
  Str.skip_spaces tail ≠ EmptyString →
  Forall (λ p, Str.no_upper (Product.name p) = false) (products (self (world s))) →
  iteration lower s =
    (Returned false,
     mkSession (world s) rest
       (stdout s ++ [">>> "; "Продукты с заданным именем не найдены."
                             +:+ String "010" EmptyString])
       (stderr s)
       (log s ++ [(WARNING, [Str ("Работники с именем " +:+ Str.skip_spaces tail
                                  +:+ " не найдены.")])])).
Proof.
  intros Hlower Hin Hsel Hq Hnames.
  rewrite (iteration_select lower s line tail rest Hin Hsel).
  assert (Str.no_upper (Str.skip_spaces tail) = true) as Hno.
  { apply no_upper_skip_spaces. specialize (Hlower line). by rewrite Hsel in Hlower. }
  destruct (Str.skip_spaces tail) as [|c query]; [done|].
  cbv zeta. rewrite filter_none; [done|].
  eapply Forall_impl; [exact Hnames|]. intros p Hp Heq. congruence.
Qed.

Lemma select_misses_upper_case_names_witness :
  let s := mkSession
             (with_products [Product.mk "Milk" "Aldi" 2; Product.mk "Tea" "Spar" 1]
                (mkWorld Staff_new ∅))
             ["select Tea"] [] [] [] in
  stdin s = ["select Tea"] ∧
  Str.ascii_lower "select Tea" = "select " +:+ "tea" ∧
  Str.skip_spaces "tea" ≠ EmptyString ∧
  Forall (λ p, Str.no_upper (Product.name p) = false) (products (self (world s))) ∧
  iteration Str.ascii_lower s =
    (Returned false,
     mkSession (world s) []
       (stdout s ++ [">>> "; "Продукты с заданным именем не найдены."
                             +:+ String "010" EmptyString])
       (stderr s)
       (log s ++ [(WARNING, [Str ("Работники с именем " +:+ Str.skip_spaces "tea"
                                  +:+ " не найдены.")])])).
Proof.
  intros s.
  assert (stdin s = ["select Tea"]) as Hin by reflexivity.
  assert (Str.ascii_lower "select Tea" = "select " +:+ "tea") as Hsel by reflexivity.
  assert (Str.skip_spaces "tea" ≠ EmptyString) as Hq by discriminate.
  assert (Forall (λ p, Str.no_upper (Product.name p) = false)
            (products (self (world s)))) as Hnames by repeat constructor.
  split; [exact Hin|]. split; [exact Hsel|]. split; [exact Hq|].
  split; [exact Hnames|].
  exact (select_misses_upper_case_names Str.ascii_lower s "select Tea" "tea" []
           ascii_lower_no_upper Hin Hsel Hq Hnames).
Defined.

(** ** [load] and [save] through the loop *)

Lemma split_load (tail : string) :
  Str.split_maxsplit_1 ("load " +:+ tail) =
    match Str.skip_spaces tail with
    | EmptyString => ["load"]
    | filename => ["load"; filename]
    end.
Proof.
  assert (Str.break_word ("load " +:+ tail) = ("load", String " " tail)) as Hw.
  { by destruct tail. }
  unfold Str.split_maxsplit_1.
  change (Str.skip_spaces ("load " +:+ tail)) with (String "l" ("oad " +:+ tail)).
  cbv iota. change (String "l" ("oad " +:+ tail)) with ("load " +:+ tail).
  rewrite Hw. by rewrite skip_spaces_space.
Qed.


Lemma iteration_load (lower : string → string) (s : Session)
    (line tail : string) (rest : list string) :
  stdin s = line :: rest →
  lower line = "load " +:+ tail →
  iteration lower s =
    (Returned false,
     match Str.skip_spaces tail with
     | EmptyString => reported IndexError (prompted s)
     | filename =>
         match (load filename (world s)).1 with
         | Return _ =>
             logged (INFO, [Str ("Загружены данные из файла " +:+ filename +:+ ".")])
               (called (load filename) s)
         | Raise e => reported (Escaped e) (called (load filename) s)
         end
     end).
Proof.
  intros Hin Hload. rewrite (iteration_read lower s line rest Hin), Hload.
  unfold try_except, dispatch.
  change (String.eqb ("load " +:+ tail) "exit") with false.
  change (String.eqb ("load " +:+ tail) "add") with false.
  change (String.eqb ("load " +:+ tail) "list") with false.
  assert (Str.startswith ("load " +:+ tail) "select " = false) as ->
    by by destruct tail.
  assert (Str.startswith ("load " +:+ tail) "load " = true) as ->
    by by destruct tail.
  cbv iota. rewrite split_load.
  destruct (Str.skip_spaces tail) as [|c filename] eqn:Hq.
  { unfold io_bind, index_1. simpl. unfold io_raise. by rewrite report_run. }
  unfold io_bind at 1 2. unfold index_1 at 1. cbn [lookup list_lookup io_ret].
  unfold staff_call, called, logged. unfold prompted at 1.
  cbn [world stdin stdout stderr log].
  destruct (load (String c filename) (world s)) as [[[]|e] w'] eqn:Hrun.
  - by destruct w'.
  - rewrite report_run. by destruct w'.
Qed.


(** X21. A [load] command reads the file named by the text after the
    command word in the lower-cased line.  Whether [load] returns or
    raises, the session goes on in the world [load] left: a load that
    returns is logged at level [INFO], a load that raises is reported by the
    handler, which restores nothing. *)
Theorem load_through_loop
    (lower : string → string) (s : Session) (line tail : string)
    (rest : list string) :
  stdin s = line :: rest →
  lower line = "load " +:+ tail →
  Str.skip_spaces tail ≠ EmptyString →
  let filename := Str.skip_spaces tail in
  iteration lower s =
    (Returned false,
     match (load filename (world s)).1 with
     | Return _ =>
         logged (INFO, [Str ("Загружены данные из файла " +:+ filename +:+ ".")])
           (called (load filename) s)
     | Raise e => reported (Escaped e) (called (load filename) s)
     end).
Proof.
  intros Hin Hload Hq filename.
  rewrite (iteration_load lower s line tail rest Hin Hload).
  subst filename. by destruct (Str.skip_spaces tail).
Qed.

Lemma load_through_loop_witness :
  let s := mkSession
             (with_products [Product.mk "Tea" "Spar" 1] (mkWorld Staff_new ∅))
             ["Load Data.XML"] [] [] [] in
  let filename := Str.skip_spaces "data.xml" in
  stdin s = ["Load Data.XML"] ∧
  Str.ascii_lower "Load Data.XML" = "load " +:+ "data.xml" ∧
  Str.skip_spaces "data.xml" ≠ EmptyString ∧
  (load filename (world s)).1 = Raise Py.FileNotFoundError ∧
  iteration Str.ascii_lower s =
    (Returned false,
     match (load filename (world s)).1 with
     | Return _ =>
         logged (INFO, [Str ("Загружены данные из файла " +:+ filename +:+ ".")])
           (called (load filename) s)
     | Raise e => reported (Escaped e) (called (load filename) s)
     end).
Proof.
  intros s filename.
  assert (stdin s = ["Load Data.XML"]) as Hin by reflexivity.
  assert (Str.ascii_lower "Load Data.XML" = "load " +:+ "data.xml") as Hload
    by reflexivity.
  assert (Str.skip_spaces "data.xml" ≠ EmptyString) as Hq by discriminate.
  split; [exact Hin|]. split; [exact Hload|]. split; [exact Hq|].
  split; [reflexivity|].
  exact (load_through_loop Str.ascii_lower s "Load Data.XML" "data.xml" []
           Hin Hload Hq).
Defined.





(** ** What a command leaves alone *)

Lemma io_keeps_ret {A B} (f : World → B) (a : A) : io_keeps f (io_ret a).
Proof. by intros s. Qed.

Lemma io_keeps_raise {A B} (f : World → B) (e : exception) :
  io_keeps f (@io_raise A e).
Proof. by intros s. Qed.

Lemma io_keeps_bind {A A' B} (f : World → B) (m : IO A) (k : A → IO A') :
  io_keeps f m → (∀ a, io_keeps f (k a)) → io_keeps f (io_bind m k).
Proof.
  intros Hm Hk s. unfold io_bind. specialize (Hm s).
  destruct (m s) as [[a|e] s1]; simpl in *; [by rewrite Hk|done].
Qed.

Lemma io_keeps_try {A B} (f : World → B) (body : IO A) (handler : exception → IO A) :
  io_keeps f body → (∀ e, io_keeps f (handler e)) →
  io_keeps f (try_except body handler).
Proof.
  intros Hm Hk s. unfold try_except. specialize (Hm s).
  destruct (body s) as [[a|e] s1]; simpl in *; [done|by rewrite Hk].
Qed.

Lemma io_keeps_input {B} (f : World → B) (prompt : string) :
  io_keeps f (input prompt).
Proof. intros s. unfold input. by destruct (stdin s). Qed.

Lemma io_keeps_print {B} (f : World → B) (text : string) : io_keeps f (print text).
Proof. by intros s. Qed.

Lemma io_keeps_logging {B} (f : World → B) (lvl : level) (message : list item) :
  io_keeps f (logging lvl message).
Proof. by intros s. Qed.

Lemma io_keeps_index_1 {B} (f : World → B) (parts : list string) :
  io_keeps f (index_1 parts).
Proof. intros s. unfold index_1. by destruct (parts !! 1%nat). Qed.

Lemma io_keeps_for_each {A B} (f : World → B) (l : list A) (body : A → IO unit) :
  (∀ x, io_keeps f (body x)) → io_keeps f (io_for_each l body).
Proof.
  intros Hbody. induction l as [|x l IH]; cbn [io_for_each].
  - apply io_keeps_ret.
  - apply io_keeps_bind; [apply Hbody|]. by intros _.
Qed.

Lemma io_keeps_staff_call {A B} (f : World → B) (m : M A) :
  (∀ w, f (m w).2 = f w) → io_keeps f (staff_call m).
Proof.
  intros Hm s. unfold staff_call. specialize (Hm (world s)).
  by destruct (m (world s)) as [[a|e] w'].
Qed.

Lemma io_keeps_report {B} (f : World → B) (exc : exception) :
  io_keeps f (report exc).
Proof. intros s. by rewrite report_run. Qed.

Lemma add_keeps_files (name market : string) (count : Z) (w : World) :
  files (add name market count w).2 = files w.
Proof. unfold add. by destruct (count <? 0). Qed.

Lemma Staff_str_keeps (w : World) : (Staff_str w).2 = w.
Proof. unfold Staff_str, bind. by rewrite Staff_table_run. Qed.

Lemma save_keeps_self (filename : string) (w : World) :
  self (save filename w).2 = self w.
Proof. rewrite save_run. by destruct (faults w !! filename) as [[]|]. Qed.

Lemma lift_keeps {A} (r : Py.exn + A) (w : World) : (lift r w).2 = w.
Proof. by destruct r. Qed.


Lemma dispatch_keeps_self (command : string) :
  command ≠ "add" → Str.startswith command "load " = false →
  io_keeps self (dispatch command).
Proof.
  intros Hadd%String.eqb_neq Hload. unfold dispatch. rewrite Hadd, Hload.
  repeat match goal with
         | |- io_keeps _ (if ?b then _ else _) => destruct b
         end;
  repeat match goal with
      | |- io_keeps _ (io_bind _ _) => apply io_keeps_bind; [|intros ?]
      | |- io_keeps _ (io_ret _) => apply io_keeps_ret
      | |- io_keeps _ (io_raise _) => apply io_keeps_raise
      | |- io_keeps _ (input _) => apply io_keeps_input
      | |- io_keeps _ (print _) => apply io_keeps_print
      | |- io_keeps _ (logging _ _) => apply io_keeps_logging
      | |- io_keeps _ (index_1 _) => apply io_keeps_index_1
      | |- io_keeps _ (io_for_each _ _) => apply io_keeps_for_each; intros ?
      | |- io_keeps _ (let '(_, _) := ?x in _) => destruct x
      | |- io_keeps _ (match ?l with [] => _ | _ :: _ => _ end) => destruct l
      | |- io_keeps _ (staff_call (lift _)) =>
          apply io_keeps_staff_call; intros ?; by rewrite lift_keeps
      | |- io_keeps _ (staff_call (select _)) =>
          apply io_keeps_staff_call; intros ?; by rewrite select_run
      | |- io_keeps _ (staff_call Staff_str) =>
          apply io_keeps_staff_call; intros ?; by rewrite Staff_str_keeps
      | |- io_keeps files (staff_call (add _ _ _)) =>
          apply io_keeps_staff_call; intros ?; apply add_keeps_files
      | |- io_keeps files (staff_call (load _)) =>
          apply io_keeps_staff_call; intros ?; apply load_keeps_files
      | |- io_keeps self (staff_call (save _)) =>
          apply io_keeps_staff_call; intros ?; apply save_keeps_self
      end.
Qed.

Lemma iteration_keeps {B} (f : World → B) (lower : string → string) (s : Session) :
  (∀ line, head (stdin s) = Some line → io_keeps f (dispatch (lower line))) →
  f (world (iteration lower s).2) = f (world s).
Proof.
  intros Hd. destruct (stdin s) as [|line rest] eqn:Hin.
  - by rewrite iteration_eof.
  - rewrite (iteration_read lower s line rest Hin).
    rewrite (io_keeps_try f (dispatch (lower line)) report).
    + done.
    + by apply Hd.
    + intros e. apply io_keeps_report.
Qed.



(** X25. Only [add] and [load] touch the catalog: when the line read does
    not lower-case to [add] and does not start with [load ] once
    lower-cased, the catalog after the pass is the catalog before it,
    however the command ends.  At the end of the input the catalog stays as
    well. *)
Theorem catalog_changes_only_by_add_and_load
    (lower : string → string) (s : Session) :
  (∀ line, head (stdin s) = Some line →
           lower line ≠ "add" ∧ Str.startswith (lower line) "load " = false) →
  self (world (iteration lower s).2) = self (world s).
Proof.
  intros Hline. apply iteration_keeps. intros line Hhead.
  destruct (Hline line Hhead). by apply dispatch_keeps_self.
Qed.

Lemma catalog_changes_only_by_add_and_load_witness :
  let s := mkSession
             (with_products [Product.mk "Tea" "Spar" 1] (mkWorld Staff_new ∅))
             ["save out.xml"] [] [] [] in
  (∀ line, head (stdin s) = Some line →
           Str.ascii_lower line ≠ "add"
           ∧ Str.startswith (Str.ascii_lower line) "load " = false) ∧
  self (world (iteration Str.ascii_lower s).2) = self (world s).
Proof.
  intros s.
  assert (∀ line, head (stdin s) = Some line →
            Str.ascii_lower line ≠ "add"
            ∧ Str.startswith (Str.ascii_lower line) "load " = false) as Hline.
  { intros line [= <-]. split; [discriminate|reflexivity]. }
  split; [exact Hline|].
  exact (catalog_changes_only_by_add_and_load Str.ascii_lower s Hline).
Defined.

(** ** Leaving the loop *)

Lemma io_consumes_ret {A} (a : A) : io_consumes (io_ret a).
Proof. by intros s. Qed.

Lemma io_consumes_raise {A} (e : exception) : io_consumes (@io_raise A e).
Proof. by intros s. Qed.

Lemma io_consumes_bind {A A'} (m : IO A) (k : A → IO A') :
  io_consumes m → (∀ a, io_consumes (k a)) → io_consumes (io_bind m k).
Proof.
  intros Hm Hk s. unfold io_bind. specialize (Hm s).
  destruct (m s) as [[a|e] s1]; simpl in *; [|done].
  by etrans; [apply Hk|].
Qed.

Lemma io_consumes_try {A} (body : IO A) (handler : exception → IO A) :
  io_consumes body → (∀ e, io_consumes (handler e)) →
  io_consumes (try_except body handler).
Proof.
  intros Hm Hk s. unfold try_except. specialize (Hm s).
  destruct (body s) as [[a|e] s1]; simpl in *; [done|].
  by etrans; [apply Hk|].
Qed.

Lemma io_consumes_input (prompt : string) : io_consumes (input prompt).
Proof.
  intros s. unfold input. destruct (stdin s) as [|line rest]; simpl; [done|].
  by apply suffix_cons_r.
Qed.

Lemma io_consumes_index_1 (parts : list string) : io_consumes (index_1 parts).
Proof. intros s. unfold index_1. by destruct (parts !! 1%nat). Qed.

Lemma io_consumes_staff_call {A} (m : M A) : io_consumes (staff_call m).
Proof. intros s. unfold staff_call. by destruct (m (world s)) as [[a|e] w']. Qed.

Lemma io_consumes_print (text : string) : io_consumes (print text).
Proof. by intros s. Qed.

Lemma io_consumes_logging (lvl : level) (message : list item) :
  io_consumes (logging lvl message).
Proof. by intros s. Qed.

Lemma io_consumes_for_each {A} (l : list A) (body : A → IO unit) :
  (∀ x, io_consumes (body x)) → io_consumes (io_for_each l body).
Proof.
  intros Hbody. induction l as [|x l IH]; cbn [io_for_each].
  - apply io_consumes_ret.
  - apply io_consumes_bind; [apply Hbody|]. by intros _.
Qed.

Lemma io_consumes_report (exc : exception) : io_consumes (report exc).
Proof. intros s. by rewrite report_run. Qed.

Lemma dispatch_consumes (command : string) : io_consumes (dispatch command).
Proof.
  unfold dispatch.
  repeat match goal with
         | |- io_consumes (if ?b then _ else _) => destruct b
         end;
  repeat match goal with
         | |- io_consumes (io_bind _ _) => apply io_consumes_bind; [|intros ?]
         | |- io_consumes (io_ret _) => apply io_consumes_ret
         | |- io_consumes (io_raise _) => apply io_consumes_raise
         | |- io_consumes (input _) => apply io_consumes_input
         | |- io_consumes (print _) => apply io_consumes_print
         | |- io_consumes (logging _ _) => apply io_consumes_logging
         | |- io_consumes (index_1 _) => apply io_consumes_index_1
         | |- io_consumes (staff_call _) => apply io_consumes_staff_call
         | |- io_consumes (io_for_each _ _) => apply io_consumes_for_each; intros ?
         | |- io_consumes (let '(_, _) := ?x in _) => destruct x
         | |- io_consumes (match ?l with [] => _ | _ :: _ => _ end) => destruct l
         end.
Qed.

Lemma iteration_consumes (lower : string → string) : io_consumes (iteration lower).
Proof.
  unfold iteration. apply io_consumes_try.
  - apply io_consumes_bind; [apply io_consumes_input|].
    intros line. apply dispatch_consumes.
  - apply io_consumes_report.
Qed.

Lemma iteration_stop (lower : string → string) (s s' : Session) :
  iteration lower s = (Returned true, s') →
  ∃ line, head (stdin s) = Some line ∧ lower line = "exit".
Proof.
  destruct (stdin s) as [|line rest] eqn:Hin.
  { by rewrite iteration_eof. }
  rewrite (iteration_read lower s line rest Hin). unfold try_except.
  destruct (String.eqb_spec (lower line) "exit") as [Hexit|Hexit].
  { intros _. by exists line. }
  pose proof (dispatch_never_stops (lower line) Hexit (prompted s)) as Hnever.
  destruct (dispatch (lower line) (prompted s)) as [[stop|e] s1].
  - intros [= -> _]. by destruct (Hnever _ _ eq_refl).
  - by rewrite report_run.
Qed.

Lemma iteration_returns (lower : string → string) (s : Session) :
  ∃ stop s', iteration lower s = (Returned stop, s').
Proof.
  unfold iteration, try_except.
  destruct (io_bind _ _ s) as [[stop|e] s1]; [by eexists _, _|].
  rewrite report_run. by eexists _, _.
Qed.

(** X26. The loop is left only by the [exit] command: if the loop has ended
    within some number of passes, then one of the lines of the input
    lower-cases to [exit].  (The converse fails: such a line may be read as
    an answer to a question of [add].) *)
Theorem loop_ends_only_after_exit_line
    (lower : string → string) (fuel : nat) (s s' : Session) :
  main_loop lower fuel s = (Returned true, s') →
  ∃ line, line ∈ stdin s ∧ lower line = "exit".
Proof.
  revert s. induction fuel as [|fuel IH]; intros s; cbn [main_loop]; [done|].
  unfold io_bind.
  pose proof (iteration_consumes lower s) as Hsuffix.
  destruct (iteration_returns lower s) as (stop & s1 & Hrun).
  rewrite Hrun in Hsuffix |- *. destruct stop.
  - intros _. destruct (iteration_stop lower s s1 Hrun) as (line & Hhead & Hexit).
    exists line. split; [|done]. destruct (stdin s); simplify_eq/=. by left.
  - intros (line & Hline & Hexit)%IH. exists line. split; [|done].
    destruct Hsuffix as (consumed & ->). set_solver.
Qed.

Lemma loop_ends_only_after_exit_line_witness :
  let s := start ∅ ["help"; "delete"; "EXIT"; "list"] in
  (∃ s', main_loop Str.ascii_lower 5 s = (Returned true, s') ∧ stdin s' = ["list"]) ∧
  ∃ line, line ∈ stdin s ∧ Str.ascii_lower line = "exit".
Proof.
  intros s.
  assert (main_loop Str.ascii_lower 5 s
          = (Returned true, (main_loop Str.ascii_lower 5 s).2)) as Hrun
    by (vm_compute; reflexivity).
  split; [eexists; split; [exact Hrun|reflexivity]|].
  exact (loop_ends_only_after_exit_line Str.ascii_lower 5 s _ Hrun).
Defined.
